(** * Access control, cache keys and job dispatch of the finance backend

    A shallow embedding of [services/rbac.service.ts], the authorisation
    middleware, [services/user.service.ts], [services/queue.service.ts] and
    [utils/constant.ts].  The database tables are explicit state: an
    [async] method that reads is a function of the database, a method that
    writes returns the new database next to its result, and a JavaScript
    [throw] is the [Throw] result. *)

From stdpp Require Import base option list strings pretty gmap.
From Stdlib Require Import Ascii ZArith Lia.

Local Open Scope string_scope.
Local Open Scope list_scope.

(** ** Results and exceptions *)

(** The error classes the services throw: the plain JavaScript [Error]
    (the only one [rbac.service.ts] uses) and the two classes of
    [utils/error] that [user.service.ts] imports. *)
Inductive exn : Type :=
  | Error (msg : string)
  | ValidationError (msg : string)
  | NotFoundError (msg : string).

Inductive result (A : Type) : Type :=
  | Ok (a : A)
  | Throw (e : exn).
Arguments Ok {A} a.
Arguments Throw {A} e.

Definition throws {A} (r : result A) : bool :=
  match r with Ok _ => false | Throw _ => true end.

(** ** Entities *)

Inductive UserStatus : Type := ACTIVE | PENDING | SUSPENDED.

Record Permission : Type := {
  perm_id : string;
  perm_name : string;
  resource : string;
  action : string;
}.

(** A role row together with its [permissions] relation.  The service
    never changes a stored permission, so keeping the related rows inside
    the role is the same as joining them. *)
Record Role : Type := {
  role_id : string;
  role_name : string;
  permissions : list Permission;
}.

(** A user.  [R] is what the [roles] relation holds: role ids in the stored
    row, loaded [Role] objects in the entity a finder returns. *)
Record UserOf (R : Type) : Type := {
  id : string;
  email : string;
  firstName : option string;
  lastName : option string;
  phoneNumber : option string;
  profilePicture : option string;
  roles : list R;
  companyId : string;
  invitedBy : string;
  isOnboarding : bool;
  isEmailVerified : bool;
  status : UserStatus;
  password : string;
  deletedAt : option Z;
}.
Arguments id {R} _.
Arguments email {R} _.
Arguments firstName {R} _.
Arguments lastName {R} _.
Arguments phoneNumber {R} _.
Arguments profilePicture {R} _.
Arguments roles {R} _.
Arguments companyId {R} _.
Arguments invitedBy {R} _.
Arguments isOnboarding {R} _.
Arguments isEmailVerified {R} _.
Arguments status {R} _.
Arguments password {R} _.
Arguments deletedAt {R} _.

Abbreviation UserRow := (UserOf string).
Abbreviation User := (UserOf Role).

Definition with_roles {R S} (rs : list S) (u : UserOf R) : UserOf S :=
  {| id := id u; email := email u; firstName := firstName u;
     lastName := lastName u; phoneNumber := phoneNumber u;
     profilePicture := profilePicture u; roles := rs;
     companyId := companyId u; invitedBy := invitedBy u;
     isOnboarding := isOnboarding u; isEmailVerified := isEmailVerified u;
     status := status u; password := password u; deletedAt := deletedAt u |}.

Definition with_deletedAt {R} (d : option Z) (u : UserOf R) : UserOf R :=
  {| id := id u; email := email u; firstName := firstName u;
     lastName := lastName u; phoneNumber := phoneNumber u;
     profilePicture := profilePicture u; roles := roles u;
     companyId := companyId u; invitedBy := invitedBy u;
     isOnboarding := isOnboarding u; isEmailVerified := isEmailVerified u;
     status := status u; password := password u; deletedAt := d |}.

Record Company : Type := {
  company_name : string;
  inviteExpiresAfter : Z;
}.

(** ** [utils/constant.ts] *)

Module ROLE_ENUM.
Definition SUPER_ADMIN := "super_admin".
Definition ADMIN := "admin".
Definition MANAGER := "manager".
Definition MEMBER := "member".
End ROLE_ENUM.

Module CACHE_CONFIG.
Definition list : Z := 5 * 60.
Definition detail : Z := 10 * 60.
Definition analytics : Z := 15 * 60.
End CACHE_CONFIG.

Module PAGINATION.
Definition defaultPage : Z := 1.
Definition defaultLimit : Z := 20.
Definition maxLimit : Z := 100.
End PAGINATION.

(** An entry of a seed table: a permission before the store gives it an id. *)
Record PermissionData : Type := {
  pd_name : string;
  pd_resource : string;
  pd_action : string;
}.

Record RoleData : Type := {
  rd_name : string;
  rd_description : string;
  rd_permissions : list string;
}.

Definition APP_PERMISSIONS : list PermissionData := [
  {| pd_name := "transaction:read"; pd_resource := "transaction"; pd_action := "read" |};
  {| pd_name := "transaction:write"; pd_resource := "transaction"; pd_action := "write" |};
  {| pd_name := "transaction:delete"; pd_resource := "transaction"; pd_action := "delete" |};
  {| pd_name := "company:read"; pd_resource := "company"; pd_action := "read" |};
  {| pd_name := "company:write"; pd_resource := "company"; pd_action := "write" |};
  {| pd_name := "user:read"; pd_resource := "user"; pd_action := "read" |};
  {| pd_name := "user:write"; pd_resource := "user"; pd_action := "write" |};
  {| pd_name := "user:delete"; pd_resource := "user"; pd_action := "delete" |};
  {| pd_name := "notice:read"; pd_resource := "notice"; pd_action := "read" |};
  {| pd_name := "notice:write"; pd_resource := "notice"; pd_action := "write" |};
  {| pd_name := "analytics:read"; pd_resource := "analytics"; pd_action := "read" |};
  {| pd_name := "*:*"; pd_resource := "*"; pd_action := "*" |}
].

Definition APP_ROLES : list RoleData := [
  {| rd_name := ROLE_ENUM.SUPER_ADMIN;
     rd_description := "Super Administrator with full system access";
     rd_permissions := ["*:*"] |};
  {| rd_name := ROLE_ENUM.ADMIN;
     rd_description := "Administrator with comprehensive management access";
     rd_permissions := [
       "transaction:read"; "transaction:write"; "transaction:delete";
       "company:read"; "company:write";
       "user:read"; "user:write"; "user:delete";
       "notice:read"; "notice:write"; "analytics:read" ] |};
  {| rd_name := ROLE_ENUM.MANAGER;
     rd_description := "Manager with operational access";
     rd_permissions := [
       "transaction:read"; "transaction:write"; "company:read"; "user:read";
       "notice:read"; "notice:write"; "analytics:read" ] |};
  {| rd_name := ROLE_ENUM.MEMBER;
     rd_description := "Basic member with read-only access";
     rd_permissions := [
       "transaction:read"; "company:read"; "user:read"; "notice:read" ] |}
].

Definition ROLE_HIERARCHY : list string := [
  ROLE_ENUM.MEMBER; ROLE_ENUM.MANAGER; ROLE_ENUM.ADMIN; ROLE_ENUM.SUPER_ADMIN
].

(** ** JavaScript array and string helpers *)

(** [Array.prototype.indexOf]: the first index holding [x], or [-1]. *)
Fixpoint indexOf (l : list string) (x : string) : Z :=
  match l with
  | [] => -1
  | y :: l' =>
      if String.eqb y x then 0
      else let i := indexOf l' x in if (i <? 0)%Z then -1 else (i + 1)%Z
  end.

(** [Array.prototype.includes] on strings. *)
Definition includes (l : list string) (x : string) : bool :=
  existsb (String.eqb x) l.

(** [Array.prototype.join]. *)
Definition join (sep : string) (l : list string) : string :=
  String.concat sep l.

(** Truthiness of an optional string and of an optional number, as the
    [if (params.x)] tests of [generateCacheKey] see them: [undefined], the
    empty string and [0] are falsy. *)
Definition truthy_string (o : option string) : bool :=
  match o with Some s => negb (String.eqb s EmptyString) | None => false end.

Definition truthy_number (o : option Z) : bool :=
  match o with Some n => negb (n =? 0)%Z | None => false end.

(** [a || b] on an optional number with a numeric default. *)
Definition or_default (o : option Z) (d : Z) : Z :=
  match o with Some n => if (n =? 0)%Z then d else n | None => d end.

(** [Math.ceil (a / b)] on integers, [b] not zero. *)
Definition ceil_div (a b : Z) : Z := (- ((- a) / b))%Z.

(** ** The stores *)

Record Pagination : Type := {
  page : Z;
  limit : Z;
  total : Z;
  totalPages : Z;
  hasNext : bool;
  hasPrev : bool;
}.

Record PaginatedResponse (T : Type) : Type := {
  data : list T;
  pagination : Pagination;
}.
Arguments data {T} _.
Arguments pagination {T} _.

(** What the cache holds under a key: the serialised value of one of the
    two reads that [UserService] caches. *)
Inductive CacheValue : Type :=
  | CachedUser (u : User)
  | CachedUserPage (p : PaginatedResponse User).

Record CacheEntry : Type := {
  entry_value : CacheValue;
  entry_expires : Z;
}.

Inductive AnalyticsType : Type := monthly | trends | summary.

Record AnalyticsJobData : Type := {
  job_companyId : string;
  job_type : AnalyticsType;
  job_userId : string;
}.

Record Job : Type := {
  job_id : string;
  job_name : string;
  job_data : AnalyticsJobData;
  job_delay : Z;
  job_timestamp : Z;
}.

(** Everything the services read and write: the four tables, the cache, the
    analytics queue, the clock in milliseconds and the counter the store
    draws generated primary keys from. *)
Record Db : Type := {
  userRepo : gmap string UserRow;
  roleRepo : list Role;
  permissionRepo : list Permission;
  companyRepo : gmap string Company;
  cache : gmap string CacheEntry;
  analyticsQueue : list Job;
  now : Z;
  nextId : N;
}.

Definition set_userRepo (f : gmap string UserRow → gmap string UserRow) (db : Db) : Db :=
  {| userRepo := f (userRepo db); roleRepo := roleRepo db;
     permissionRepo := permissionRepo db; companyRepo := companyRepo db;
     cache := cache db; analyticsQueue := analyticsQueue db;
     now := now db; nextId := nextId db |}.

Definition set_roleRepo (f : list Role → list Role) (db : Db) : Db :=
  {| userRepo := userRepo db; roleRepo := f (roleRepo db);
     permissionRepo := permissionRepo db; companyRepo := companyRepo db;
     cache := cache db; analyticsQueue := analyticsQueue db;
     now := now db; nextId := nextId db |}.

Definition set_permissionRepo (f : list Permission → list Permission) (db : Db) : Db :=
  {| userRepo := userRepo db; roleRepo := roleRepo db;
     permissionRepo := f (permissionRepo db); companyRepo := companyRepo db;
     cache := cache db; analyticsQueue := analyticsQueue db;
     now := now db; nextId := nextId db |}.

Definition set_cache (f : gmap string CacheEntry → gmap string CacheEntry) (db : Db) : Db :=
  {| userRepo := userRepo db; roleRepo := roleRepo db;
     permissionRepo := permissionRepo db; companyRepo := companyRepo db;
     cache := f (cache db); analyticsQueue := analyticsQueue db;
     now := now db; nextId := nextId db |}.

Definition set_analyticsQueue (f : list Job → list Job) (db : Db) : Db :=
  {| userRepo := userRepo db; roleRepo := roleRepo db;
     permissionRepo := permissionRepo db; companyRepo := companyRepo db;
     cache := cache db; analyticsQueue := f (analyticsQueue db);
     now := now db; nextId := nextId db |}.

Definition set_now (t : Z) (db : Db) : Db :=
  {| userRepo := userRepo db; roleRepo := roleRepo db;
     permissionRepo := permissionRepo db; companyRepo := companyRepo db;
     cache := cache db; analyticsQueue := analyticsQueue db;
     now := t; nextId := nextId db |}.

(** A generated primary key: the counter printed in decimal. *)
Definition generateId (db : Db) : string * Db :=
  (pretty (nextId db),
   {| userRepo := userRepo db; roleRepo := roleRepo db;
      permissionRepo := permissionRepo db; companyRepo := companyRepo db;
      cache := cache db; analyticsQueue := analyticsQueue db;
      now := now db; nextId := N.succ (nextId db) |}).

(** ** Effects: a state and exception monad

    A write that happened before a [throw] stays written: there is no
    transaction in the services, so the database is returned next to the
    result in both cases. *)
Definition M (A : Type) : Type := Db → result A * Db.

Global Instance M_ret : MRet M := λ A a db, (Ok a, db).

Global Instance M_bind : MBind M := λ A B f m db,
  match m db with
  | (Ok a, db') => f a db'
  | (Throw e, db') => (Throw e, db')
  end.

Definition throw {A} (e : exn) : M A := λ db, (Throw e, db).
Definition get {A} (f : Db → A) : M A := λ db, (Ok (f db), db).
Definition modify (f : Db → Db) : M unit := λ db, (Ok tt, f db).
(** A method that only reads, run inside a method that writes. *)
Definition query {A} (q : Db → result A) : M A := λ db, (q db, db).

(** [for (const x of xs) { await body(x) }]. *)
Fixpoint for_of {A} (xs : list A) (body : A → M unit) : M unit :=
  match xs with
  | [] => mret tt
  | x :: xs' => _ ← body x; for_of xs' body
  end.

(** ** Repositories (the ORM's finders, as far as the services use them) *)

(** The [roles] relation of a row, loaded: each referenced role that the
    role table still holds. *)
Definition loadRoles (db : Db) (row : UserRow) : list Role :=
  omap (λ rid, find (λ r, String.eqb (role_id r) rid) (roleRepo db)) (roles row).

Definition loadUser (db : Db) (row : UserRow) : User :=
  with_roles (loadRoles db row) row.

(** Finders skip soft-removed rows. *)
Definition live (row : UserRow) : bool :=
  match deletedAt row with None => true | Some _ => false end.

(** [userRepo.findOne({ where: { id }, relations: [...] })]: the table is
    indexed by primary key, and the row returned has the id asked for. *)
Definition userRepo_findOne (db : Db) (userId : string) : option User :=
  row ← userRepo db !! userId;
  if live row && String.eqb (id row) userId then Some (loadUser db row) else None.

(** [userRepo.findOne({ where: { id, companyId } })]. *)
Definition userRepo_findOne_in (db : Db) (userId company : string) : option User :=
  u ← userRepo_findOne db userId;
  if String.eqb (companyId u) company then Some u else None.

(** [userRepo.findOne({ where: { email } })], as the test the callers make
    of it: is there such a row. *)
Definition userRepo_exists_email (db : Db) (mail : string) : bool :=
  existsb (λ kv, live kv.2 && String.eqb (email kv.2) mail)
          (map_to_list (userRepo db)).

(** [userRepo.save(user)]: the row under the user's id is written, its
    relation holding the ids of [user.roles]. *)
Definition userRepo_save (u : User) : M User := λ db,
  (Ok u, set_userRepo (insert (id u) (with_roles (role_id <$> roles u) u)) db).

(** [roleRepo.findOne({ where: { name } })]. *)
Definition roleRepo_findOne (db : Db) (name : string) : option Role :=
  find (λ r, String.eqb (role_name r) name) (roleRepo db).

(** [roleRepo.find({ where: names.map((name) => ({ name })) })]: the rows
    whose name is one of [names], each row once.  The list of conditions is
    a disjunction; every caller modelled here passes a non-empty list or
    is studied on non-empty lists only. *)
Definition roleRepo_find (db : Db) (names : list string) : list Role :=
  filter (λ r, includes names (role_name r) = true) (roleRepo db).

Definition permissionRepo_findOne (db : Db) (name : string) : option Permission :=
  find (λ p, String.eqb (perm_name p) name) (permissionRepo db).

Definition permissionRepo_find (db : Db) (names : list string) : list Permission :=
  filter (λ p, includes names (perm_name p) = true) (permissionRepo db).

(** [permissionRepo.save(permissionRepo.create(perm))]: a new row with a
    generated id, appended to the table. *)
Definition permissionRepo_save_new (name res act : string) : M Permission := λ db,
  let '(i, db) := generateId db in
  let p := {| perm_id := i; perm_name := name; resource := res; action := act |} in
  (Ok p, set_permissionRepo (λ t, (t ++ [p])%list) db).

(** [roleRepo.save(roleRepo.create({ name, permissions }))]. *)
Definition roleRepo_save_new (name : string) (perms : list Permission) : M Role := λ db,
  let '(i, db) := generateId db in
  let r := {| role_id := i; role_name := name; permissions := perms |} in
  (Ok r, set_roleRepo (λ t, (t ++ [r])%list) db).

(** [roleRepo.save(role)] for a role that was loaded from the table: the
    row with its id is rewritten. *)
Definition roleRepo_save (r : Role) : M Role := λ db,
  (Ok r,
   set_roleRepo (fmap (λ x, if String.eqb (role_id x) (role_id r) then r else x)) db).

(** [set.add(x)] on a JavaScript [Set], kept in insertion order as
    [Array.from] reads it. *)
Definition Set_add (acc : list string) (x : string) : list string :=
  if includes acc x then acc else acc ++ [x].

(** ** [RBACService] *)

Module RBACService.

(** [checkUserPermission]: the two nested loops, returning at the first
    permission that matches. *)
Definition checkUserPermission (user : User) (res act : string) : bool :=
  existsb (λ role,
    existsb (λ permission,
      (String.eqb (resource permission) res
         && (String.eqb (action permission) act
               || String.eqb (action permission) "*"))
      || (String.eqb (resource permission) "*"
            && String.eqb (action permission) "*"))
      (permissions role))
    (roles user).

Definition hasPermission (db : Db) (userId res act : string) : result bool :=
  match userRepo_findOne db userId with
  | None => Ok false
  | Some user => Ok (checkUserPermission user res act)
  end.

Definition hasAnyPermission (db : Db) (userId res : string)
    (actions : list string) : result bool :=
  match userRepo_findOne db userId with
  | None => Ok false
  | Some user => Ok (existsb (λ act, checkUserPermission user res act) actions)
  end.

Definition hasAllPermissions (db : Db) (userId res : string)
    (actions : list string) : result bool :=
  match userRepo_findOne db userId with
  | None => Ok false
  | Some user => Ok (forallb (λ act, checkUserPermission user res act) actions)
  end.

Definition hasRole (db : Db) (userId roleName : string) : result bool :=
  match userRepo_findOne db userId with
  | None => Ok false
  | Some user => Ok (existsb (λ role, String.eqb (role_name role) roleName) (roles user))
  end.

Definition hasMinimumRole (db : Db) (userId minimumRole : string) : result bool :=
  match userRepo_findOne db userId with
  | None => Ok false
  | Some user =>
      let roleHierarchy := ROLE_HIERARCHY in
      let minimumLevel := indexOf roleHierarchy minimumRole in
      if (minimumLevel =? -1)%Z then Throw (Error ("Unknown role: " +:+ minimumRole))
      else
        Ok (existsb (λ role,
              let userLevel := indexOf roleHierarchy (role_name role) in
              (userLevel >=? minimumLevel)%Z)
            (roles user))
  end.

Definition getUserRoles (db : Db) (userId : string) : result (list string) :=
  match userRepo_findOne db userId with
  | None => Ok []
  | Some user => Ok (role_name <$> roles user)
  end.

Definition assignRole (userId roleName : string) : M unit :=
  user ← get (λ db, userRepo_findOne db userId);
  role ← get (λ db, roleRepo_findOne db roleName);
  match user, role with
  | Some user, Some role =>
      if negb (existsb (λ r, String.eqb (role_id r) (role_id role)) (roles user))
      then
        _ ← userRepo_save (with_roles (roles user ++ [role])%list user);
        mret tt
      else mret tt
  | _, _ => throw (Error "User or role not found")
  end.

Definition createRole (roleName : string) (permissionNames : list string) : M Role :=
  existingRole ← get (λ db, roleRepo_findOne db roleName);
  match existingRole with
  | Some _ => throw (Error ("Role '" +:+ roleName +:+ "' already exists"))
  | None =>
      perms ← get (λ db, permissionRepo_find db permissionNames);
      if negb (length perms =? length permissionNames)%nat
      then throw (Error "Some permissions not found")
      else roleRepo_save_new roleName perms
  end.

Definition createPermission (res act : string) : M Permission :=
  let name := res +:+ ":" +:+ act in
  existingPermission ← get (λ db, permissionRepo_findOne db name);
  match existingPermission with
  | Some _ => throw (Error ("Permission '" +:+ name +:+ "' already exists"))
  | None => permissionRepo_save_new name res act
  end.

(** The body of the first loop of [seedRolesAndPermissions]. *)
Definition seedPermission (perm : PermissionData) : M unit :=
  existingPerm ← get (λ db, permissionRepo_findOne db (pd_name perm));
  match existingPerm with
  | Some _ => mret tt
  | None =>
      _ ← permissionRepo_save_new (pd_name perm) (pd_resource perm) (pd_action perm);
      mret tt
  end.

(** The body of its second loop. *)
Definition seedRole (roleData : RoleData) : M unit :=
  existingRole ← get (λ db, roleRepo_findOne db (rd_name roleData));
  match existingRole with
  | Some _ => mret tt
  | None =>
      perms ← get (λ db, permissionRepo_find db (rd_permissions roleData));
      _ ← roleRepo_save_new (rd_name roleData) perms;
      mret tt
  end.

(** [seedRolesAndPermissions]; the [try]/[catch] only logs and rethrows. *)
Definition seedRolesAndPermissions : M unit :=
  _ ← for_of APP_PERMISSIONS seedPermission;
  for_of APP_ROLES seedRole.

Definition hasAnyRole (db : Db) (userId : string) (roleNames : list string)
    : result bool :=
  match userRepo_findOne db userId with
  | None => Ok false
  | Some user =>
      let userRoleNames := role_name <$> roles user in
      Ok (existsb (λ roleName, includes userRoleNames roleName) roleNames)
  end.

Definition hasAllRoles (db : Db) (userId : string) (roleNames : list string)
    : result bool :=
  match userRepo_findOne db userId with
  | None => Ok false
  | Some user =>
      let userRoleNames := role_name <$> roles user in
      Ok (forallb (λ roleName, includes userRoleNames roleName) roleNames)
  end.

(** [getUserPermissions]: the two loops add [`${resource}:${action}`] of
    every permission of every role to a [Set]. *)
Definition getUserPermissions (db : Db) (userId : string) : result (list string) :=
  match userRepo_findOne db userId with
  | None => Ok []
  | Some user =>
      Ok (foldl (λ acc role,
                   foldl (λ acc permission,
                            Set_add acc (resource permission +:+ ":" +:+ action permission))
                         acc (permissions role))
                [] (roles user))
  end.


Definition removeRole (userId roleName : string) : M unit :=
  user ← get (λ db, userRepo_findOne db userId);
  match user with
  | None => throw (Error "User not found")
  | Some user =>
      _ ← userRepo_save
            (with_roles
               (filter (λ role, String.eqb (role_name role) roleName = false)
                       (roles user))
               user);
      mret tt
  end.

Definition removeRoles (userId : string) (roleNames : list string) : M unit :=
  user ← get (λ db, userRepo_findOne db userId);
  match user with
  | None => throw (Error "User not found")
  | Some user =>
      _ ← userRepo_save
            (with_roles
               (filter (λ role, includes roleNames (role_name role) = false)
                       (roles user))
               user);
      mret tt
  end.

Definition updateRolePermissions (roleName : string)
    (permissionNames : list string) : M Role :=
  role ← get (λ db, roleRepo_findOne db roleName);
  match role with
  | None => throw (Error ("Role '" +:+ roleName +:+ "' not found"))
  | Some role =>
      perms ← get (λ db, permissionRepo_find db permissionNames);
      if negb (length perms =? length permissionNames)%nat
      then throw (Error "Some permissions not found")
      else
        roleRepo_save {| role_id := role_id role; role_name := role_name role;
                         permissions := perms |}
  end.

Definition isSuperAdmin (db : Db) (userId : string) : result bool :=
  hasRole db userId "super_admin".

End RBACService.

(** ** The authorisation middleware *)

Module Middleware.

(** [req.user], reduced to the id the middleware reads. *)
Record Request : Type := { req_user : option string }.

(** Either [next()] was called, or a JSON error was sent. *)
Inductive Response : Type :=
  | next
  | json (code : Z) (message : string).

Definition authorize (res : string) (actions : list string)
    (req : Request) (db : Db) : Response :=
  match req_user req with
  | None => json 401 "Authentication required"
  | Some uid =>
      let perms := (λ a, res +:+ ":" +:+ a) <$> actions in
      match RBACService.hasAnyPermission db uid res actions with
      | Ok hasPermission =>
          if negb hasPermission
          then json 403 ("Insufficient permissions. Required one of: "
                           +:+ join ", " perms)
          else next
      | Throw _ => json 500 "Authorization error"
      end
  end.

Definition authorizeAll (res : string) (actions : list string)
    (req : Request) (db : Db) : Response :=
  match req_user req with
  | None => json 401 "Authentication required"
  | Some uid =>
      match RBACService.hasAllPermissions db uid res actions with
      | Ok hasAllPermissions =>
          if negb hasAllPermissions
          then
            let perms := (λ a, res +:+ ":" +:+ a) <$> actions in
            json 403 ("Insufficient permissions. Required all: "
                        +:+ join ", " perms)
          else next
      | Throw _ => json 500 "Authorization error"
      end
  end.

Definition requireMinimumRole (minimumRole : string)
    (req : Request) (db : Db) : Response :=
  match req_user req with
  | None => json 401 "Authentication required"
  | Some uid =>
      match RBACService.hasMinimumRole db uid minimumRole with
      | Ok hasMinimumRole =>
          if negb hasMinimumRole
          then json 403 ("Access denied. Minimum required role: " +:+ minimumRole)
          else next
      | Throw _ => json 500 "Authorization error"
      end
  end.

Definition requireAnyRole (roleNames : list string)
    (req : Request) (db : Db) : Response :=
  match req_user req with
  | None => json 401 "Authentication required"
  | Some uid =>
      match RBACService.hasAnyRole db uid roleNames with
      | Ok hasAnyRole =>
          if negb hasAnyRole
          then json 403 ("Access denied. Required one of these roles: "
                           +:+ join ", " roleNames)
          else next
      | Throw _ => json 500 "Authorization error"
      end
  end.

Definition requireAllRoles (roleNames : list string)
    (req : Request) (db : Db) : Response :=
  match req_user req with
  | None => json 401 "Authentication required"
  | Some uid =>
      match RBACService.hasAllRoles db uid roleNames with
      | Ok hasAllRoles =>
          if negb hasAllRoles
          then json 403 ("Access denied. Required all roles: "
                           +:+ join ", " roleNames)
          else next
      | Throw _ => json 500 "Authorization error"
      end
  end.

Definition requireRole (roleName : string) : Request → Db → Response :=
  requireAnyRole [roleName].

(** [allowSuperAdmin(middleware)]: the wrapped middleware is any function
    from the request to a response. *)
Definition allowSuperAdmin (middleware : Request → Db → Response)
    (req : Request) (db : Db) : Response :=
  match req_user req with
  | None => json 401 "Authentication required"
  | Some uid =>
      match RBACService.hasRole db uid "super_admin" with
      | Ok isSuperAdmin => if isSuperAdmin then next else middleware req db
      | Throw _ => json 500 "Authorization error"
      end
  end.

(** What [requireCompanyOwnership] reads of a request: the company of the
    authenticated user and the [companyId] of the route parameters, of the
    body and of the query string. *)
Record CompanyRequest : Type := {
  cr_user_companyId : option string;
  cr_params_companyId : option string;
  cr_body_companyId : option string;
  cr_query_companyId : option string;
}.

(** [a || b] on optional strings: the first that is truthy; the last
    operand is the value when none is. *)
Definition or_string (a b : option string) : option string :=
  if truthy_string a then a else b.

Definition requireCompanyOwnership (req : CompanyRequest) : Response :=
  match cr_user_companyId req with
  | None => json 401 "Authentication required"
  | Some userCompany =>
      let company :=
        or_string (or_string (cr_params_companyId req) (cr_body_companyId req))
                  (cr_query_companyId req) in
      if negb (truthy_string company)
      then json 400 "Company ID is required"
      else if negb (String.eqb userCompany (default EmptyString company))
      then json 403 "Access denied. You can only access your own company data."
      else next
  end.

End Middleware.

(** ** [CacheService] *)

(** The values a caller can cache: how [T] is stored and read back. *)
Class Cacheable (T : Type) : Type := {
  toCache : T → CacheValue;
  ofCache : CacheValue → option T;
}.

Global Instance Cacheable_User : Cacheable User := {|
  toCache := CachedUser;
  ofCache v := match v with CachedUser u => Some u | _ => None end;
|}.

Global Instance Cacheable_UserPage : Cacheable (PaginatedResponse User) := {|
  toCache := CachedUserPage;
  ofCache v := match v with CachedUserPage p => Some p | _ => None end;
|}.

Module CacheService.

(** Modelled from the spec: [services/cache.service.ts] is not among the
    sources.  A pattern is a glob in which [*] stands for any run of
    characters (the only metacharacter the callers write); a pattern
    without [*] matches exactly the key it spells. *)
Fixpoint glob_match (pattern key : string) : bool :=
  match pattern with
  | EmptyString =>
      match key with EmptyString => true | String _ _ => false end
  | String c pattern' =>
      if Ascii.eqb c "*"%char then
        (fix star (k : string) : bool :=
           glob_match pattern' k
           || match k with
              | EmptyString => false
              | String _ k' => star k'
              end) key
      else
        match key with
        | EmptyString => false
        | String d key' => Ascii.eqb c d && glob_match pattern' key'
        end
  end.

(** Modelled from the spec: the read half of [withCache], a stored value
    is never returned once its time-to-live has elapsed. *)
Definition lookup (key : string) (db : Db) : option CacheValue :=
  e ← cache db !! key;
  if (now db <? entry_expires e)%Z then Some (entry_value e) else None.

(** Modelled from the spec: [withCache(key, compute, useCache,
    ttlSeconds)].  Without [useCache] the value is computed and not
    stored; on a hit the stored value is returned and [compute] is not
    run; on a miss [compute] runs once and its value is stored for
    [ttlSeconds].  A [compute] that throws stores nothing. *)
Definition withCache {T} `{Cacheable T} (key : string) (compute : M T)
    (useCache : bool) (ttlSeconds : Z) : M T := λ db,
  if negb useCache then compute db
  else
    match lookup key db ≫= ofCache with
    | Some v => (Ok v, db)
    | None =>
        match compute db with
        | (Ok v, db') =>
            (Ok v,
             set_cache (insert key
               {| entry_value := toCache v;
                  entry_expires := (now db' + ttlSeconds * 1000)%Z |}) db')
        | (Throw e, db') => (Throw e, db')
        end
    end.

(** Modelled from the spec: [deletePattern(pattern)] removes every stored
    key that matches the pattern. *)
Definition deletePattern (pattern : string) : M unit :=
  modify (set_cache (filter (λ kv, glob_match pattern kv.1 = false))).

End CacheService.

(** ** [QueueService] *)

Module Queue.

(** Modelled from the spec: the analytics queue of [config/queue.config]
    is not among the sources.  [add(name, data, { delay })] records one
    more job, stamped with the time of the call; no option of the call
    names an existing job, so nothing is merged. *)
Definition add (name : string) (payload : AnalyticsJobData) (delay : Z) : M Job := λ db,
  let '(i, db) := generateId db in
  let j := {| job_id := i; job_name := name; job_data := payload;
              job_delay := delay; job_timestamp := now db |} in
  (Ok j, set_analyticsQueue (λ q, (q ++ [j])%list) db).

(** Modelled from the spec: a job with a delay is not visible to the
    workers until the delay has elapsed. *)
Definition eligible (t : Z) (j : Job) : bool :=
  (job_timestamp j + job_delay j <=? t)%Z.

End Queue.

Module QueueService.

Definition calculateAnalytics (company : string) (type : AnalyticsType)
    (userId : string) : M Job :=
  Queue.add "calculate-analytics"
    {| job_companyId := company; job_type := type; job_userId := userId |}
    2000.

(** [scheduleAnalyticsRefresh]: [map] calls [calculateAnalytics] for the
    three types in the order of the array, so the jobs are added in that
    order before [Promise.all] waits for them. *)
Fixpoint addAll (company : string) (types : list AnalyticsType) : M (list Job) :=
  match types with
  | [] => mret []
  | type :: types' =>
      j ← calculateAnalytics company type "system";
      js ← addAll company types';
      mret (j :: js)
  end.

Definition scheduleAnalyticsRefresh (company : string) : M (list Job) :=
  addAll company [summary; monthly; trends].

End QueueService.

(** The clock moving on between two requests. *)
Definition sleep (ms : Z) : M unit := modify (λ db, set_now (now db + ms)%Z db).

(** ** [UserService] *)

(** [UserQueryParams]: the pagination and sort options of [QueryOptions]
    that the service reads, and the user filters. *)
Record UserQueryParams : Type := {
  q_page : option Z;
  q_limit : option Z;
  q_sortBy : option string;
  q_sortOrder : option string;
  q_search : option string;
  q_status : option UserStatus;
  q_role : option string;
  q_includeInactive : option bool;
}.

(** The [params] object handed to [generateCacheKey]. *)
Record KeyParams : Type := {
  kp_id : option string;
  kp_companyId : option string;
  kp_page : option Z;
  kp_limit : option Z;
  kp_filters : option UserQueryParams;
}.

Inductive StatusCond : Type :=
  | StatusIs (s : UserStatus)
  | StatusIn (l : list UserStatus).

(** One element of the [where] array: the conjunction of the conditions
    that are present; [Like] and [ILike] keep their pattern. *)
Record UserWhere : Type := {
  w_companyId : string;
  w_status : option StatusCond;
  w_roles : option string;
  w_firstName : option string;
  w_lastName : option string;
  w_email : option string;
}.

Record FindManyOptions : Type := {
  fo_where : list UserWhere;
  fo_relations : list string;
  fo_order : string * string;
  fo_skip : Z;
  fo_take : Z;
}.

Record CreateCompanyUserData : Type := {
  d_email : string;
  d_firstName : option string;
  d_lastName : option string;
  d_phoneNumber : option string;
  d_profilePicture : option string;
  d_roles : list string;
  d_status : option UserStatus;
}.

Module UserService.

(** Page and limit are integers; [`${n}`] prints them in decimal. *)
Definition generateCacheKey (type : string) (params : KeyParams) : string :=
  let keyParts := [type] in
  let keyParts :=
    if truthy_string (kp_id params)
    then (keyParts ++ [default EmptyString (kp_id params)])%list else keyParts in
  let keyParts :=
    if truthy_string (kp_companyId params)
    then (keyParts ++ ["company:" +:+ default EmptyString (kp_companyId params)])%list
    else keyParts in
  let keyParts :=
    if truthy_number (kp_page params)
    then (keyParts ++ ["page:" +:+ pretty (default 0%Z (kp_page params))])%list
    else keyParts in
  let keyParts :=
    if truthy_number (kp_limit params)
    then (keyParts ++ ["limit:" +:+ pretty (default 0%Z (kp_limit params))])%list
    else keyParts in
  "user:" +:+ join ":" keyParts.

(** The key [getUsers] computes for a request. *)
Definition listCacheKey (params : UserQueryParams) (company : string) : string :=
  generateCacheKey "list"
    {| kp_id := None; kp_companyId := Some company;
       kp_page := q_page params; kp_limit := q_limit params;
       kp_filters := Some params |}.

(** [Promise.all] over the patterns; the deletions do not depend on each
    other, so they are run in the order of the array. *)
Definition invalidateUserCaches (company : string) (userId : option string) : M unit :=
  let patterns := ["user:list:company:" +:+ company +:+ "*"] in
  let patterns :=
    if truthy_string userId
    then (patterns ++ ["user:detail:" +:+ default EmptyString userId])%list
    else patterns in
  for_of patterns CacheService.deletePattern.

Definition buildQueryFilters (params : UserQueryParams) (company : string)
    : FindManyOptions :=
  let baseCondition :=
    {| w_companyId := company;
       w_status :=
         match q_status params with
         | Some s => Some (StatusIs s)
         | None =>
             if negb (default false (q_includeInactive params))
             then Some (StatusIn [ACTIVE; PENDING]) else None
         end;
       w_roles :=
         if truthy_string (q_role params)
         then Some ("%" +:+ default EmptyString (q_role params) +:+ "%") else None;
       w_firstName := None; w_lastName := None; w_email := None |} in
  let like := "%" +:+ default EmptyString (q_search params) +:+ "%" in
  let where_ :=
    if truthy_string (q_search params) then
      [ {| w_companyId := w_companyId baseCondition;
           w_status := w_status baseCondition; w_roles := w_roles baseCondition;
           w_firstName := Some like; w_lastName := None; w_email := None |};
        {| w_companyId := w_companyId baseCondition;
           w_status := w_status baseCondition; w_roles := w_roles baseCondition;
           w_firstName := None; w_lastName := Some like; w_email := None |};
        {| w_companyId := w_companyId baseCondition;
           w_status := w_status baseCondition; w_roles := w_roles baseCondition;
           w_firstName := None; w_lastName := None; w_email := Some like |} ]
    else [baseCondition] in
  let order :=
    if truthy_string (q_sortBy params)
    then (default EmptyString (q_sortBy params),
          if truthy_string (q_sortOrder params)
          then default EmptyString (q_sortOrder params) else "DESC")
    else ("createdAt", "DESC") in
  {| fo_where := where_;
     fo_relations := ["company"];
     fo_order := order;
     fo_skip :=
       ((or_default (q_page params) PAGINATION.defaultPage - 1)
        * or_default (q_limit params) PAGINATION.defaultLimit)%Z;
     fo_take :=
       Z.min (or_default (q_limit params) PAGINATION.defaultLimit)
             PAGINATION.maxLimit |}.

Section Collaborators.

(** The ORM running a query: [userRepo.findAndCount(options)]. *)
Variable findAndCount : FindManyOptions → Db → list User * Z.

(** [authService.processEmail(email, type, user, password, flag)]: of
    the mail transport only success or failure reaches the caller. *)
Variable processEmail : string → string → User → string → bool → result unit.

(** [crypto.randomBytes(n).toString('hex')]. *)
Variable randomBytesHex : Z → string.

Definition getUsers (params : UserQueryParams) (company : string)
    : M (PaginatedResponse User) :=
  let cacheKey := listCacheKey params company in
  CacheService.withCache cacheKey
    (λ db,
       let queryOptions := buildQueryFilters params company in
       let '(users, total) := findAndCount queryOptions db in
       let page := or_default (q_page params) PAGINATION.defaultPage in
       let limit :=
         Z.min (or_default (q_limit params) PAGINATION.defaultLimit)
               PAGINATION.maxLimit in
       (Ok {| data := users;
              pagination :=
                {| page := page; limit := limit; total := total;
                   totalPages := ceil_div total limit;
                   hasNext := (page * limit <? total)%Z;
                   hasPrev := (page >? 1)%Z |} |}, db))
    true CACHE_CONFIG.list.

Definition getUserById (userId company : string) : M User :=
  let cacheKey := "user:detail:" +:+ userId in
  CacheService.withCache cacheKey
    (user ← get (λ db, userRepo_findOne_in db userId company);
     match user with
     | None => throw (NotFoundError "User not found")
     | Some user => mret user
     end)
    true CACHE_CONFIG.detail.

(** The [where] of the three role lookups of [createUser]: the
    requested names, or the member role when none is requested. *)
Definition requestedRoles (d : CreateCompanyUserData) : list string :=
  match d_roles d with
  | [] => [ROLE_ENUM.MEMBER]
  | _ :: _ => d_roles d
  end.

(** Steps 1 to 3 of [createUser]: look the requested roles up; when
    none is found, reseed the built-in tables and look again; when
    still none is found, take the member role. *)
Definition resolveRoles (d : CreateCompanyUserData) : M (list Role) :=
  (* Step 1 *)
  found ← get (λ db, roleRepo_find db (requestedRoles d));
  (* Step 2 *)
  found ←
    (match found with
     | [] =>
         _ ← RBACService.seedRolesAndPermissions;
         get (λ db, roleRepo_find db (requestedRoles d))
     | _ :: _ => mret found
     end);
  (* Step 3 *)
  match found with
  | [] => get (λ db, roleRepo_find db [ROLE_ENUM.MEMBER])
  | _ :: _ => mret found
  end.

Definition createUser (d : CreateCompanyUserData) (company userId : string)
    (invited : bool) : M User :=
  existingUser ← get (λ db, userRepo_exists_email db (d_email d));
  if existingUser : bool
  then throw (ValidationError "User already exists with this email")
  else
  companyRow ← get (λ db, companyRepo db !! company);
  match companyRow with
  | None => throw (ValidationError "Company not found")
  | Some _ =>
    found ← resolveRoles d;
    let password := randomBytesHex 16 in
    newId ← (λ db, let '(i, db') := generateId db in (Ok i, db'));
    savedUser ← userRepo_save
      {| id := newId; email := d_email d; firstName := d_firstName d;
         lastName := d_lastName d; phoneNumber := d_phoneNumber d;
         profilePicture := d_profilePicture d; roles := found;
         companyId := company; invitedBy := userId;
         isOnboarding := false; isEmailVerified := invited;
         status := (if invited then PENDING else ACTIVE);
         password := password; deletedAt := None |};
    _ ← (if negb invited
         then query (λ _, processEmail (email savedUser) "verify" savedUser
                            password true)
         else mret tt);
    _ ← invalidateUserCaches company None;
    mret savedUser
  end.

(** [userRepo.softRemove(user)]: the row stays, stamped as removed. *)
Definition softRemove (user : User) : M unit :=
  modify (λ db,
    set_userRepo (alter (with_deletedAt (Some (now db))) (id user)) db).

Definition deleteUser (userId company : string) : M string :=
  user ← get (λ db, userRepo_findOne_in db userId company);
  match user with
  | None => throw (NotFoundError "User not found")
  | Some user =>
      _ ← softRemove user;
      mret "User deleted successfully"
  end.

End Collaborators.

End UserService.

(** ** A burst of analytics triggers *)

(** Four recomputation requests for one tenant, [d1], [d2] and [d3]
    milliseconds apart. *)
Definition analyticsBurst (company : string) (type : AnalyticsType)
    (userId : string) (d1 d2 d3 : Z) : M (list Job) :=
  j1 ← QueueService.calculateAnalytics company type userId;
  _ ← sleep d1;
  j2 ← QueueService.calculateAnalytics company type userId;
  _ ← sleep d2;
  j3 ← QueueService.calculateAnalytics company type userId;
  _ ← sleep d3;
  j4 ← QueueService.calculateAnalytics company type userId;
  mret [j1; j2; j3; j4].

(** The jobs of a tenant that the workers can see at time [t]. *)
Definition eligibleJobs (company : string) (t : Z) (db : Db) : list Job :=
  filter (λ j, String.eqb (job_companyId (job_data j)) company
               && Queue.eligible t j = true) (analyticsQueue db).

(** ** Sample data *)

Module Sample.

(** Collaborators for the examples: mail always goes out, the password is
    fixed, and the query executor applies the company condition of the
    first [where] element only. *)
Definition processEmail : string → string → User → string → bool → result unit :=
  λ _ _ _ _ _, Ok tt.

Definition randomBytesHex : Z → string := λ _, "5f2a".

Definition findAndCount (options : FindManyOptions) (db : Db) : list User * Z :=
  let company := default EmptyString (w_companyId <$> head (fo_where options)) in
  let rows :=
    filter (λ row, live row && String.eqb (companyId row) company = true)
           ((map_to_list (userRepo db)).*2) in
  (loadUser db <$> rows, Z.of_nat (length rows)).

Definition createUser := UserService.createUser processEmail randomBytesHex.
Definition getUsers := UserService.getUsers findAndCount.

Definition userData (mail : string) (names : list string) : CreateCompanyUserData :=
  {| d_email := mail; d_firstName := None; d_lastName := None;
     d_phoneNumber := None; d_profilePicture := None;
     d_roles := names; d_status := None |}.

Definition noFilter : UserQueryParams :=
  {| q_page := Some 1%Z; q_limit := Some 20%Z; q_sortBy := None;
     q_sortOrder := None; q_search := None; q_status := None;
     q_role := None; q_includeInactive := None |}.

Definition searchFor (s : string) : UserQueryParams :=
  {| q_page := Some 1%Z; q_limit := Some 20%Z; q_sortBy := None;
     q_sortOrder := None; q_search := Some s; q_status := None;
     q_role := None; q_includeInactive := None |}.

(** One company, no user, no role, no permission. *)
Definition empty : Db :=
  {| userRepo := ∅; roleRepo := []; permissionRepo := [];
     companyRepo := {[ "c1" := {| company_name := "Acme"; inviteExpiresAfter := 0 |} ]};
     cache := ∅; analyticsQueue := []; now := 0; nextId := 1 |}.

(** The built-in roles and permissions, ids ["1"] to ["16"]. *)
Definition seeded : Db :=
  Eval vm_compute in (RBACService.seedRolesAndPermissions empty).2.

(** A custom role outside the hierarchy (id ["17"]) and three users:
    ["18"] holds it, ["19"] is an admin, ["20"] is a member. *)
Definition staffed : Db := Eval vm_compute in
  let db := (RBACService.createRole "auditor" ["transaction:read"] seeded).2 in
  let db := (createUser (userData "ann@acme.test" ["auditor"]) "c1" "root" false db).2 in
  let db := (createUser (userData "bob@acme.test" ["admin"]) "c1" "root" false db).2 in
  (createUser (userData "cat@acme.test" ["member"]) "c1" "root" false db).2.

(** A user without any role, stored directly. *)
Definition bare : Db := Eval vm_compute in
  set_userRepo (insert "u0"
    {| id := "u0"; email := "dan@acme.test"; firstName := None;
       lastName := None; phoneNumber := None; profilePicture := None;
       roles := []; companyId := "c1"; invitedBy := "root";
       isOnboarding := false; isEmailVerified := true; status := ACTIVE;
       password := "5f2a"; deletedAt := None |}) seeded.

(** [staffed] after the list page and the detail of user ["20"] were
    read, and so cached. *)
Definition warmed : Db := Eval vm_compute in
  let db := (getUsers noFilter "c1" staffed).2 in
  (UserService.getUserById "20" "c1" db).2.

(** [staffed] with a super administrator, user ["21"]. *)
Definition crowned : Db := Eval vm_compute in
  (createUser (userData "sue@acme.test" ["super_admin"]) "c1" "root" false staffed).2.

(** A request for page [n] with [lim] rows to a page, without filter. *)
Definition paged (n lim : Z) : UserQueryParams :=
  {| q_page := Some n; q_limit := Some lim; q_sortBy := None;
     q_sortOrder := None; q_search := None; q_status := None;
     q_role := None; q_includeInactive := None |}.

End Sample.

(** ** Predicates of the statements *)

(** [db'] is [db] with the same users and possibly more roles. *)
Definition extends (db db' : Db) : Prop :=
  userRepo db' = userRepo db ∧ ∃ extra, roleRepo db' = roleRepo db ++ extra.

(** A permission grants [(res, act)]: it names the pair, or the resource
    with the wildcard action, or is the universal permission. *)
Definition grants (p : Permission) (res act : string) : Prop :=
  (resource p = res ∧ action p = act)
  ∨ (resource p = res ∧ action p = "*")
  ∨ (resource p = "*" ∧ action p = "*").

(** A held role meets the minimum: it is in the hierarchy, at or above
    the position of [minimumRole]. *)
Definition meets (minimumRole : string) (role : Role) : Prop :=
  role_name role ∈ ROLE_HIERARCHY
  ∧ (indexOf ROLE_HIERARCHY minimumRole ≤ indexOf ROLE_HIERARCHY (role_name role))%Z.

(** What the two creations answer and leave behind.  A failure leaves the
    database as it was. *)
Definition createRole_outcome (db : Db) (roleName : string)
    (permissionNames : list string) : Prop :=
  match roleRepo_findOne db roleName with
  | Some _ =>
      RBACService.createRole roleName permissionNames db
      = (Throw (Error ("Role '" +:+ roleName +:+ "' already exists")), db)
  | None =>
      if decide (Forall (λ n, is_Some (permissionRepo_findOne db n)) permissionNames)
      then
        ∃ role db',
          RBACService.createRole roleName permissionNames db = (Ok role, db')
          ∧ role_name role = roleName
          ∧ perm_name <$> permissions role ≡ₚ permissionNames
          ∧ roleRepo db' = roleRepo db ++ [role]
          ∧ permissionRepo db' = permissionRepo db
          ∧ userRepo db' = userRepo db
      else
        RBACService.createRole roleName permissionNames db
        = (Throw (Error "Some permissions not found"), db)
  end.

Definition createPermission_outcome (db : Db) (res act : string) : Prop :=
  match permissionRepo_findOne db (res +:+ ":" +:+ act) with
  | Some _ =>
      RBACService.createPermission res act db
      = (Throw (Error ("Permission '" +:+ (res +:+ ":" +:+ act)
                         +:+ "' already exists")), db)
  | None =>
      ∃ p db',
        RBACService.createPermission res act db = (Ok p, db')
        ∧ perm_name p = res +:+ ":" +:+ act
        ∧ resource p = res ∧ action p = act
        ∧ permissionRepo db' = permissionRepo db ++ [p]
        ∧ roleRepo db' = roleRepo db
        ∧ userRepo db' = userRepo db
  end.

(** Reading back what was stored gives the value, and nothing else reads
    back as that value. *)
Class CacheableOk (T : Type) `{Cacheable T} : Prop := {
  ofCache_toCache : ∀ x : T, ofCache (toCache x) = Some x;
  toCache_ofCache : ∀ (c : CacheValue) (x : T), ofCache c = Some x → toCache x = c;
}.

(** The string [getUserPermissions] lists a permission as. *)
Definition permissionString (p : Permission) : string :=
  resource p +:+ ":" +:+ action p.

(** A role is the one the role table answers with for its own id. *)
Definition canonical (db : Db) (r : Role) : Prop :=
  find (λ x, String.eqb (role_id x) (role_id r)) (roleRepo db) = Some r.

(** ** Invitations: [entities/Invite.ts] and the invite methods of [UserService] *)

Module InviteService.

(** [InviteStatus] of [types]. *)
Inductive InviteStatus : Type := ACTIVE | EXPIRED | DELETED | USED.

Global Instance InviteStatus_eq_dec : EqDecision InviteStatus.
Proof. solve_decision. Defined.

(** The columns of an invite that the service reads or writes. *)
Record Invite : Type := {
  invite_id : string;
  invite_invitedBy : string;
  invite_companyId : string;
  targetEmail : string;
  invite_roles : list string;
  invite_status : InviteStatus;
  token : string;
  expiresAt : Z;
  invite_deletedAt : option Z;
}.

Definition with_status (s : InviteStatus) (i : Invite) : Invite :=
  {| invite_id := invite_id i; invite_invitedBy := invite_invitedBy i;
     invite_companyId := invite_companyId i; targetEmail := targetEmail i;
     invite_roles := invite_roles i; invite_status := s; token := token i;
     expiresAt := expiresAt i; invite_deletedAt := invite_deletedAt i |}.

Definition with_removed (d : Z) (i : Invite) : Invite :=
  {| invite_id := invite_id i; invite_invitedBy := invite_invitedBy i;
     invite_companyId := invite_companyId i; targetEmail := targetEmail i;
     invite_roles := invite_roles i; invite_status := invite_status i;
     token := token i; expiresAt := expiresAt i; invite_deletedAt := Some d |}.

(** The invite table, next to the tables, the cache and the clock that
    the other services use. *)
Record Store : Type := {
  tables : Db;
  inviteRepo : list Invite;
}.

Definition set_inviteRepo (f : list Invite → list Invite) (st : Store) : Store :=
  {| tables := tables st; inviteRepo := f (inviteRepo st) |}.

(** The same store at another time of the clock. *)
Definition at_time (t : Z) (st : Store) : Store :=
  {| tables := set_now t (tables st); inviteRepo := inviteRepo st |}.

(** The state and exception monad of the services, over [Store]. *)
Definition MI (A : Type) : Type := Store → result A * Store.

Global Instance MI_ret : MRet MI := λ A a st, (Ok a, st).

Global Instance MI_bind : MBind MI := λ A B f m st,
  match m st with
  | (Ok a, st') => f a st'
  | (Throw e, st') => (Throw e, st')
  end.

Definition throwI {A} (e : exn) : MI A := λ st, (Throw e, st).
Definition getI {A} (f : Store → A) : MI A := λ st, (Ok (f st), st).

(** A method of the other services, run on the tables of the store. *)
Definition lift {A} (m : M A) : MI A := λ st,
  let '(r, db) := m (tables st) in
  (r, {| tables := db; inviteRepo := inviteRepo st |}).

(** Finders skip soft-removed invites. *)
Definition present (i : Invite) : bool :=
  match invite_deletedAt i with None => true | Some _ => false end.

(** [inviteRepo.findOne({ where })], the condition given as a test. *)
Definition inviteRepo_findOne (where_ : Invite → bool) (st : Store) : option Invite :=
  find (λ i, present i && where_ i) (inviteRepo st).

(** [inviteRepo.save(invite)] for an invite that was loaded from the
    table: the row with its id is rewritten. *)
Definition inviteRepo_save (i : Invite) : MI Invite := λ st,
  (Ok i,
   set_inviteRepo
     (fmap (λ x, if String.eqb (invite_id x) (invite_id i) then i else x)) st).

(** [inviteRepo.save(inviteRepo.create({ ... }))]: a new row with a
    generated id, appended to the table.  The [token] column is unique:
    the database rejects a token that a row, removed or not, already
    holds, and the driver's error (an [Error]) reaches the caller. *)
Definition inviteRepo_save_new (mail : string) (names : list string)
    (company userId tok : string) (expires : Z) : MI Invite := λ st,
  if existsb (λ x, String.eqb (token x) tok) (inviteRepo st)
  then (Throw (Error "duplicate key value violates unique constraint"), st)
  else
    let '(i, db) := generateId (tables st) in
    let invite :=
      {| invite_id := i; invite_invitedBy := userId;
         invite_companyId := company; targetEmail := mail;
         invite_roles := names; invite_status := ACTIVE; token := tok;
         expiresAt := expires; invite_deletedAt := None |} in
    (Ok invite, {| tables := db; inviteRepo := inviteRepo st ++ [invite] |}).

(** [inviteRepo.softRemove(invite)]: the row stays, stamped as removed. *)
Definition inviteRepo_softRemove (i : Invite) : MI unit := λ st,
  (Ok tt,
   set_inviteRepo
     (fmap (λ x, if String.eqb (invite_id x) (invite_id i)
                 then with_removed (now (tables st)) x else x)) st).

Definition expiredMessage : string := "Invite expired, contact admin of your company".

(** The result is the object [{ valid, invite }]. *)
Definition checkInviteToken (tok : string) : MI (bool * Invite) :=
  invite ← getI (inviteRepo_findOne (λ i, String.eqb (token i) tok));
  match invite with
  | None => throwI (ValidationError "Invalid Invite")
  | Some invite =>
    if negb (bool_decide (invite_status invite = ACTIVE))
    then throwI (ValidationError expiredMessage)
    else
      today ← getI (λ st, now (tables st));
      if (today >? expiresAt invite)%Z
      then
        (* Update status to expired *)
        _ ← inviteRepo_save (with_status EXPIRED invite);
        throwI (ValidationError expiredMessage)
      else mret (true, invite)
  end.

Definition deleteInvite (inviteId company : string) : MI string :=
  invite ← getI (inviteRepo_findOne
                   (λ i, String.eqb (invite_id i) inviteId
                         && String.eqb (invite_companyId i) company));
  match invite with
  | None => throwI (NotFoundError "Invite not found")
  | Some invite =>
      _ ← inviteRepo_softRemove invite;
      mret "Invite deleted successfully"
  end.

Section Collaborators.

(** [EmailService.sendInvitationEmail(email, companyName, token,
    password)]: of the mail transport only success or failure reaches
    the caller. *)
Variable sendInvitationEmail : string → string → string → string → result unit.

(** [crypto.randomBytes(n).toString('hex')]. *)
Variable randomBytesHex : Z → string.

(** The condition of the third lookup of [createInvite]. *)
Definition activeFor (mail company : string) (i : Invite) : bool :=
  String.eqb (targetEmail i) mail && String.eqb (invite_companyId i) company
  && bool_decide (invite_status i = ACTIVE).

Definition createInvite (mail : string) (names : list string)
    (company userId : string) : MI Invite :=
  (* Check if user already exists *)
  existingUser ← getI (λ st, userRepo_exists_email (tables st) mail);
  if existingUser : bool
  then throwI (ValidationError "User already exists with this email")
  else
  (* Validate company exists *)
  companyRow ← getI (λ st, companyRepo (tables st) !! company);
  match companyRow with
  | None => throwI (ValidationError "Company not found")
  | Some c =>
    (* Check if active invite already exists *)
    existingInvite ← getI (inviteRepo_findOne (activeFor mail company));
    match existingInvite with
    | Some _ => throwI (ValidationError "Active invite already exists for this email")
    | None =>
      let tok := randomBytesHex 32 in
      today ← getI (λ st, now (tables st));
      let expires :=
        (today + or_default (Some (inviteExpiresAfter c)) (72 * 60 * 60 * 1000))%Z in
      savedInvite ← inviteRepo_save_new mail names company userId tok expires;
      _ ← (λ st,
             (sendInvitationEmail mail
                (if String.eqb (company_name c) EmptyString
                 then "Company" else company_name c)
                tok "kkkkkkk", st));
      _ ← lift (UserService.invalidateUserCaches company None);
      mret savedInvite
    end
  end.

End Collaborators.

End InviteService.

Module SampleInvites.

(** The mail goes out; the token is fixed. *)
Definition sendInvitationEmail : string → string → string → string → result unit :=
  λ _ _ _ _, Ok tt.


Definition randomBytesHex : Z → string := λ _, "9c41".

Definition createInvite := InviteService.createInvite sendInvitationEmail randomBytesHex.

(** The staffed company, no invite yet. *)
Definition fresh : InviteService.Store :=
  {| InviteService.tables := Sample.staffed; InviteService.inviteRepo := [] |}.

(** One invite, for ["eve@acme.test"]: it expires 72 hours after time 0. *)
Definition invited : InviteService.Store := Eval vm_compute in
  (createInvite "eve@acme.test" ["member"] "c1" "19" fresh).2.



End SampleInvites.

(** [db'] is [db] with the same users and cache, and with rows appended
    to the role and permission tables. *)
Definition grows (db db' : Db) : Prop :=
  userRepo db' = userRepo db ∧ cache db' = cache db
  ∧ (∃ extra, roleRepo db' = roleRepo db ++ extra)
  ∧ (∃ extra, permissionRepo db' = permissionRepo db ++ extra).

(** * Properties *)

(** ** Array helpers *)

Lemma indexOf_lower (l : list string) (x : string) : (-1 ≤ indexOf l x)%Z.
Proof.
  induction l as [|y l IH]; simpl; [lia|].
  destruct (String.eqb y x); [lia|].
  destruct (Z.ltb_spec (indexOf l x) 0); lia.
Qed.

(** [indexOf] answers [-1] exactly for the names the array does not hold. *)
Lemma indexOf_absent (l : list string) (x : string) :
  indexOf l x = (-1)%Z ↔ x ∉ l.
Proof.
  induction l as [|y l IH]; simpl.
  - split; [intros _; apply not_elem_of_nil | done].
  - rewrite not_elem_of_cons. destruct (String.eqb_spec y x) as [->|Hne].
    + split; [lia | intros [? _]; done].
    + pose proof (indexOf_lower l x).
      destruct (Z.ltb_spec (indexOf l x) 0).
      * split; [intros _ | done].
        split; [congruence | apply IH; lia].
      * split; [lia | intros [_ Hx]; apply IH in Hx; lia].
Qed.

Lemma indexOf_present (l : list string) (x : string) :
  (0 ≤ indexOf l x)%Z ↔ x ∈ l.
Proof.
  pose proof (indexOf_lower l x). pose proof (indexOf_absent l x) as Ha.
  destruct (decide (x ∈ l)) as [Hin|Hout].
  - split; [done | intros _].
    destruct (decide (indexOf l x = (-1)%Z)) as [E|E]; [apply Ha in E; done | lia].
  - apply Ha in Hout. split; [lia | intros Hin; apply Ha in Hout; done].
Qed.

Lemma existsb_elem_of {A} (f : A → bool) (l : list A) :
  existsb f l = true ↔ ∃ x, x ∈ l ∧ f x = true.
Proof.
  rewrite existsb_exists. setoid_rewrite list_elem_of_In. done.
Qed.

(** ** Permission checks *)

Lemma checkUserPermission_true (user : User) (res act : string) :
  RBACService.checkUserPermission user res act = true ↔
  ∃ role, role ∈ roles user ∧ ∃ p, p ∈ permissions role ∧ grants p res act.
Proof.
  unfold RBACService.checkUserPermission, grants.
  rewrite existsb_elem_of. apply exist_proper; intros role.
  apply and_iff_compat_l. rewrite existsb_elem_of.
  apply exist_proper; intros p. apply and_iff_compat_l.
  rewrite orb_true_iff, !andb_true_iff, orb_true_iff, !String.eqb_eq.
  tauto.
Qed.

(** C1: [hasPermission] never throws; it answers [true] exactly when the
    principal is found and one of its roles has a permission that is the
    queried pair, the resource with action [*], or [*:*]; for an id that
    no principal has it answers [false]. *)
Theorem hasPermission_spec (db : Db) (userId res act : string) :
  (RBACService.hasPermission db userId res act = Ok true ↔
   ∃ user, userRepo_findOne db userId = Some user ∧
     ∃ role, role ∈ roles user ∧ ∃ p, p ∈ permissions role ∧ grants p res act)
  ∧ (RBACService.hasPermission db userId res act = Ok false ↔
     ¬ ∃ user, userRepo_findOne db userId = Some user ∧
       ∃ role, role ∈ roles user ∧ ∃ p, p ∈ permissions role ∧ grants p res act)
  ∧ match userRepo_findOne db userId with
    | None => RBACService.hasPermission db userId res act = Ok false
    | Some _ => throws (RBACService.hasPermission db userId res act) = false
    end.
Proof.
  unfold RBACService.hasPermission.
  destruct (userRepo_findOne db userId) as [user|] eqn:Hu.
  - pose proof (checkUserPermission_true user res act) as Hc.
    destruct (RBACService.checkUserPermission user res act).
    + split; [|split; [|done]].
      * split; [intros _ | done]. exists user. split; [done | by apply Hc].
      * split; [done | intros Hn]. exfalso. apply Hn.
        exists user. split; [done | by apply Hc].
    + assert (¬ ∃ u, Some user = Some u ∧
                ∃ role, role ∈ roles u ∧ ∃ p, p ∈ permissions role ∧ grants p res act)
        as Hn.
      { intros (u & [= <-] & H). apply Hc in H. done. }
      split; [|split; [|done]]; split; done.
  - split; [|split; [|done]]; split; try done.
    + intros (u & ? & _). done.
    + intros _ (u & ? & _). done.
Qed.

(** ** Hierarchical role checks *)

Lemma hasMinimumRole_known (db : Db) (userId minimumRole : string) (user : User) :
  userRepo_findOne db userId = Some user →
  minimumRole ∈ ROLE_HIERARCHY →
  ∃ b, RBACService.hasMinimumRole db userId minimumRole = Ok b
       ∧ (b = true ↔ ∃ role, role ∈ roles user ∧ meets minimumRole role).
Proof.
  intros Hu Hmin. unfold RBACService.hasMinimumRole. rewrite Hu. cbv zeta.
  apply indexOf_present in Hmin.
  destruct (Z.eqb_spec (indexOf ROLE_HIERARCHY minimumRole) (-1)) as [E|_]; [lia|].
  eexists; split; [reflexivity|].
  rewrite existsb_elem_of. apply exist_proper; intros role.
  apply and_iff_compat_l. unfold meets. rewrite Z.geb_le.
  split; [intros Hle | tauto].
  split; [apply indexOf_present; lia | done].
Qed.

Lemma hasMinimumRole_unknown (db : Db) (userId minimumRole : string) (user : User) :
  userRepo_findOne db userId = Some user →
  minimumRole ∉ ROLE_HIERARCHY →
  RBACService.hasMinimumRole db userId minimumRole
  = Throw (Error ("Unknown role: " +:+ minimumRole)).
Proof.
  intros Hu Hmin. unfold RBACService.hasMinimumRole. rewrite Hu. cbv zeta.
  apply indexOf_absent in Hmin. rewrite Hmin. reflexivity.
Qed.

(** C2, as the code has it: for a principal that is found, the call throws
    exactly when [minimumRole] is not in the hierarchy, and the error is
    the plain [Error] "Unknown role: ...".  When [minimumRole] is in the
    hierarchy the call returns, whatever the names of the held roles: it
    answers [true] exactly when some held role is in the hierarchy at or
    above [minimumRole], so a held role outside the hierarchy never meets
    the minimum and never makes the call fail. *)
Theorem hasMinimumRole_unknown_names (db : Db) (userId minimumRole : string)
    (user : User) :
  userRepo_findOne db userId = Some user →
  (throws (RBACService.hasMinimumRole db userId minimumRole) = true
   ↔ minimumRole ∉ ROLE_HIERARCHY)
  ∧ (minimumRole ∉ ROLE_HIERARCHY →
     RBACService.hasMinimumRole db userId minimumRole
     = Throw (Error ("Unknown role: " +:+ minimumRole)))
  ∧ (RBACService.hasMinimumRole db userId minimumRole = Ok true
     ↔ minimumRole ∈ ROLE_HIERARCHY
       ∧ ∃ role, role ∈ roles user ∧ meets minimumRole role)
  ∧ (RBACService.hasMinimumRole db userId minimumRole = Ok false
     ↔ minimumRole ∈ ROLE_HIERARCHY
       ∧ ¬ ∃ role, role ∈ roles user ∧ meets minimumRole role).
Proof.
  intros Hu.
  destruct (decide (minimumRole ∈ ROLE_HIERARCHY)) as [Hin|Hout].
  - destruct (hasMinimumRole_known db userId minimumRole user Hu Hin)
      as (b & -> & Hb). simpl.
    split; [split; [done | intros Hn; done] |].
    split; [intros Hn; done |].
    destruct b.
    + split; split; try done.
      * intros _. split; [done | by apply Hb].
      * intros [_ Hn]. exfalso. apply Hn. by apply Hb.
    + assert (¬ ∃ role, role ∈ roles user ∧ meets minimumRole role) as Hn.
      { intros H. apply Hb in H. done. }
      split; split; try done. intros [_ H]. done.
  - rewrite (hasMinimumRole_unknown db userId minimumRole user Hu Hout). simpl.
    split; [done |]. split; [done |].
    split; split; try done; intros [? _]; done.
Qed.

(** An instance: the admin ["19"] checked against a name the hierarchy
    does not have. *)
Lemma hasMinimumRole_unknown_names_witness :
  ∃ user, userRepo_findOne Sample.staffed "19" = Some user
    ∧ RBACService.hasMinimumRole Sample.staffed "19" "owner"
      = Throw (Error "Unknown role: owner").
Proof.
  eexists. split; [vm_compute; reflexivity |].
  eapply (hasMinimumRole_unknown_names Sample.staffed "19" "owner").
  - vm_compute. reflexivity.
  - apply indexOf_absent. vm_compute. reflexivity.
Defined.

(** C2 as stated fails: user ["18"] holds the role "auditor", which the
    hierarchy does not list, and the check against "member" returns
    [false] instead of throwing. *)
Lemma hasMinimumRole_held_role_outside_hierarchy :
  ∃ user role,
    userRepo_findOne Sample.staffed "18" = Some user
    ∧ role ∈ roles user
    ∧ (role_name role ∉ ROLE_HIERARCHY)
    ∧ RBACService.hasMinimumRole Sample.staffed "18" "member" = Ok false.
Proof.
  eexists _, _. split; [vm_compute; reflexivity |].
  split; [apply list_elem_of_here |].
  split; [apply indexOf_absent; vm_compute; reflexivity |].
  vm_compute. reflexivity.
Qed.

(** C7: a principal that holds a role at some level of the hierarchy
    passes the check against every role of the hierarchy at or below that
    level. *)
Theorem hasMinimumRole_monotonic (db : Db) (userId minimumRole : string)
    (user : User) (role : Role) :
  userRepo_findOne db userId = Some user →
  role ∈ roles user →
  role_name role ∈ ROLE_HIERARCHY →
  minimumRole ∈ ROLE_HIERARCHY →
  (indexOf ROLE_HIERARCHY minimumRole ≤ indexOf ROLE_HIERARCHY (role_name role))%Z →
  RBACService.hasMinimumRole db userId minimumRole = Ok true.
Proof.
  intros Hu Hrole Hname Hmin Hle.
  destruct (hasMinimumRole_known db userId minimumRole user Hu Hmin)
    as (b & -> & Hb).
  f_equal. apply Hb. exists role. split; [done | split; done].
Qed.

(** An instance: the admin ["19"] passes the check against "manager". *)
Lemma hasMinimumRole_monotonic_witness :
  ∃ user role,
    userRepo_findOne Sample.staffed "19" = Some user
    ∧ role ∈ roles user
    ∧ role_name role = "admin"
    ∧ RBACService.hasMinimumRole Sample.staffed "19" "manager" = Ok true.
Proof.
  eexists _, _. split; [vm_compute; reflexivity |].
  split; [apply list_elem_of_here |].
  split; [reflexivity |].
  eapply (hasMinimumRole_monotonic Sample.staffed "19" "manager").
  - vm_compute. reflexivity.
  - apply list_elem_of_here.
  - apply indexOf_present. vm_compute. discriminate.
  - apply indexOf_present. vm_compute. discriminate.
  - vm_compute. discriminate.
Defined.

(** ** Empty action lists *)

(** C9: for a principal that is found, [hasAllPermissions] with no action
    answers [true] and [hasAnyPermission] answers [false], whatever the
    principal holds; [authorizeAll] with no action lets the request of
    such a user through. *)
Theorem empty_actions (db : Db) (userId res : string) (user : User) :
  userRepo_findOne db userId = Some user →
  RBACService.hasAllPermissions db userId res [] = Ok true
  ∧ RBACService.hasAnyPermission db userId res [] = Ok false
  ∧ Middleware.authorizeAll res [] {| Middleware.req_user := Some userId |} db
    = Middleware.next.
Proof.
  intros Hu.
  unfold Middleware.authorizeAll, RBACService.hasAllPermissions,
    RBACService.hasAnyPermission. simpl. rewrite Hu. done.
Qed.

(** An instance: user ["u0"], who holds no role at all. *)
Lemma empty_actions_witness :
  ∃ user,
    userRepo_findOne Sample.bare "u0" = Some user
    ∧ roles user = []
    ∧ RBACService.hasAllPermissions Sample.bare "u0" "transaction" [] = Ok true
    ∧ RBACService.hasAnyPermission Sample.bare "u0" "transaction" [] = Ok false
    ∧ Middleware.authorizeAll "transaction" []
        {| Middleware.req_user := Some "u0" |} Sample.bare
      = Middleware.next.
Proof.
  eexists. split; [vm_compute; reflexivity |].
  split; [reflexivity |].
  eapply (empty_actions Sample.bare "u0" "transaction").
  vm_compute. reflexivity.
Defined.

(** ** Role assignment *)

Lemma userRepo_findOne_Some (db : Db) (userId : string) (user : User) :
  userRepo_findOne db userId = Some user →
  ∃ row, userRepo db !! userId = Some row
         ∧ user = loadUser db row ∧ id row = userId ∧ deletedAt row = None.
Proof.
  unfold userRepo_findOne, live. intros H.
  destruct (userRepo db !! userId) as [row|]; [|done]. simpl in H.
  destruct (deletedAt row) eqn:Hd; [done|]. simpl in H.
  destruct (String.eqb_spec (id row) userId); [|done].
  exists row. by simplify_eq.
Qed.

Lemma find_role_by_id (rid : string) (table : list Role) (r : Role) :
  find (λ r, String.eqb (role_id r) rid) table = Some r → role_id r = rid.
Proof.
  intros H. apply find_some in H as [_ H]. by apply String.eqb_eq.
Qed.

Lemma find_role_by_id_elem_of (role : Role) (table : list Role) :
  role ∈ table →
  ∃ r, find (λ r, String.eqb (role_id r) (role_id role)) table = Some r.
Proof.
  intros Hin.
  destruct (find (λ r, String.eqb (role_id r) (role_id role)) table) eqn:E; [eauto|].
  apply list_elem_of_In in Hin.
  pose proof (find_none _ _ E role Hin) as Hn. simpl in Hn.
  rewrite String.eqb_refl in Hn. done.
Qed.

Lemma roleRepo_findOne_elem_of (db : Db) (name : string) (role : Role) :
  roleRepo_findOne db name = Some role → role ∈ roleRepo db ∧ role_name role = name.
Proof.
  unfold roleRepo_findOne. intros H. apply find_some in H as [Hin Hn].
  split; [by apply list_elem_of_In | by apply String.eqb_eq].
Qed.

(** The ids of the loaded roles are the stored ids that resolve. *)
Lemma loadRoles_ids (db : Db) (row : UserRow) :
  role_id <$> loadRoles db row
  = filter (λ rid, is_Some (find (λ r, String.eqb (role_id r) rid) (roleRepo db)))
           (roles row).
Proof.
  unfold loadRoles. induction (roles row) as [|rid ids IH]; [done|].
  rewrite filter_cons. simpl.
  destruct (find (λ r, String.eqb (role_id r) rid) (roleRepo db)) as [r|] eqn:E.
  - simpl. f_equal; [by apply find_role_by_id in E | exact IH].
  - simpl. exact IH.
Qed.

Lemma held_by_id (role : Role) (held : list Role) :
  existsb (λ r, String.eqb (role_id r) (role_id role)) held = true
  ↔ role_id role ∈ role_id <$> held.
Proof.
  rewrite existsb_elem_of, list_elem_of_fmap.
  split; intros (r & H1 & H2).
  - exists r. apply String.eqb_eq in H2. done.
  - exists r. split; [done | by apply String.eqb_eq].
Qed.

(** What [assignRole] does, case by case. *)
Lemma assignRole_eval (db : Db) (userId roleName : string) :
  RBACService.assignRole userId roleName db =
  match userRepo_findOne db userId, roleRepo_findOne db roleName with
  | Some user, Some role =>
      if existsb (λ r, String.eqb (role_id r) (role_id role)) (roles user)
      then (Ok tt, db)
      else (Ok tt,
            set_userRepo
              (insert (id user)
                 (with_roles (role_id <$> (roles user ++ [role])) user)) db)
  | _, _ => (Throw (Error "User or role not found"), db)
  end.
Proof.
  unfold RBACService.assignRole, mbind, M_bind, get, throw, mret, M_ret,
    userRepo_save.
  destruct (userRepo_findOne db userId) as [user|];
    destruct (roleRepo_findOne db roleName) as [role|]; try reflexivity.
  destruct (existsb _ (roles user)); reflexivity.
Qed.

(** After the role was appended and saved, the finder sees it. *)
Lemma assignRole_saved (db : Db) (userId roleName : string) (user : User)
    (role : Role) :
  userRepo_findOne db userId = Some user →
  roleRepo_findOne db roleName = Some role →
  let db1 :=
    set_userRepo
      (insert (id user) (with_roles (role_id <$> (roles user ++ [role])) user)) db in
  ∃ user1, userRepo_findOne db1 userId = Some user1
           ∧ roleRepo_findOne db1 roleName = Some role
           ∧ existsb (λ r, String.eqb (role_id r) (role_id role)) (roles user1) = true.
Proof.
  intros Hu Hr db1.
  destruct (userRepo_findOne_Some _ _ _ Hu) as (row & Hrow & -> & Hid & Hdel).
  destruct (roleRepo_findOne_elem_of _ _ _ Hr) as [Hin _].
  destruct (find_role_by_id_elem_of role (roleRepo db) Hin) as [r' Hr'].
  eexists. split; [|split; [exact Hr|]].
  - unfold userRepo_findOne, db1. simpl. rewrite Hid, lookup_insert_eq. simpl.
    unfold live. simpl. rewrite Hdel, Hid, String.eqb_refl. reflexivity.
  - apply held_by_id. cbn [roles loadUser with_roles].
    rewrite loadRoles_ids. cbn [roles with_roles roleRepo set_userRepo].
    apply list_elem_of_filter. split.
    + rewrite Hr'. eauto.
    + rewrite fmap_app. apply elem_of_app. right. simpl. apply list_elem_of_here.
Qed.

(** C6: a second [assignRole] with the same arguments answers as the
    first did and changes nothing; one for a role the principal already
    holds changes nothing either; and a stored role set without repetition
    stays without repetition. *)
Theorem assignRole_idempotent (db db1 : Db) (userId roleName : string)
    (r : result unit) :
  RBACService.assignRole userId roleName db = (r, db1) →
  RBACService.assignRole userId roleName db1 = (r, db1)
  ∧ (∀ user role,
       userRepo_findOne db userId = Some user →
       roleRepo_findOne db roleName = Some role →
       role_id role ∈ role_id <$> roles user →
       db1 = db)
  ∧ (∀ row row1,
       userRepo db !! userId = Some row →
       userRepo db1 !! userId = Some row1 →
       NoDup (roles row) → NoDup (roles row1)).
Proof.
  rewrite (assignRole_eval db). intros H.
  assert (db1 = db →
          RBACService.assignRole userId roleName db = (r, db1) →
          RBACService.assignRole userId roleName db1 = (r, db1)
          ∧ (∀ user role,
               userRepo_findOne db userId = Some user →
               roleRepo_findOne db roleName = Some role →
               role_id role ∈ role_id <$> roles user → db1 = db)
          ∧ (∀ row row1,
               userRepo db !! userId = Some row →
               userRepo db1 !! userId = Some row1 →
               NoDup (roles row) → NoDup (roles row1))) as Hsame.
  { intros -> Hrun. split; [done|]. split; [done|].
    intros row row1 H1 H2. by simplify_eq. }
  destruct (userRepo_findOne db userId) as [user|] eqn:Hu.
  2: { injection H as <- <-. apply Hsame; [done|].
       by rewrite assignRole_eval, Hu. }
  destruct (roleRepo_findOne db roleName) as [role|] eqn:Hr.
  2: { injection H as <- <-. apply Hsame; [done|].
       by rewrite assignRole_eval, Hu, Hr. }
  destruct (existsb _ (roles user)) eqn:Hheld.
  - (* already held: nothing is written *)
    injection H as <- <-. apply Hsame; [done|].
    by rewrite assignRole_eval, Hu, Hr, Hheld.
  - (* appended and saved *)
    injection H as <- <-.
    destruct (assignRole_saved db userId roleName user role Hu Hr)
      as (user1 & Hu1 & Hr1 & Hheld1).
    split; [|split].
    + rewrite assignRole_eval, Hu1, Hr1, Hheld1. reflexivity.
    + intros user' role' [= <-] [= <-] Hin.
      apply held_by_id in Hin. congruence.
    + intros row row1 Hrow Hrow1 Hnd.
      destruct (userRepo_findOne_Some _ _ _ Hu) as (row' & Hrow' & -> & Hid & _).
      simplify_eq. cbn [userRepo set_userRepo id loadUser with_roles] in Hrow1.
      rewrite lookup_insert_eq in Hrow1.
      injection Hrow1 as <-. cbn [roles loadUser with_roles].
      rewrite fmap_app, loadRoles_ids. simpl.
      apply NoDup_app. split; [by apply NoDup_filter|].
      split; [|apply NoDup_singleton].
      intros rid Hrid Hlast. apply list_elem_of_singleton in Hlast as ->.
      rewrite <- loadRoles_ids in Hrid.
      change (loadRoles db row) with (roles (loadUser db row)) in Hrid.
      apply held_by_id in Hrid. congruence.
Qed.

(** An instance: the member ["20"] is made a manager, twice. *)
Lemma assignRole_idempotent_witness :
  ∃ db1,
    RBACService.assignRole "20" "manager" Sample.staffed = (Ok tt, db1)
    ∧ RBACService.getUserRoles db1 "20" = Ok ["member"; "manager"]
    ∧ RBACService.assignRole "20" "manager" db1 = (Ok tt, db1).
Proof.
  eexists. split; [vm_compute; reflexivity |].
  split; [vm_compute; reflexivity |].
  eapply (assignRole_idempotent Sample.staffed).
  vm_compute. reflexivity.
Defined.

(** ** Creating roles and permissions *)

Lemma includes_elem_of (l : list string) (x : string) :
  includes l x = true ↔ x ∈ l.
Proof.
  unfold includes. rewrite existsb_elem_of. split.
  - intros (y & Hy & E). apply String.eqb_eq in E. by subst.
  - intros Hx. exists x. split; [done | apply String.eqb_refl].
Qed.

Lemma permissionRepo_findOne_is_Some (db : Db) (name : string) :
  is_Some (permissionRepo_findOne db name)
  ↔ name ∈ perm_name <$> permissionRepo db.
Proof.
  unfold permissionRepo_findOne. rewrite list_elem_of_fmap. split.
  - intros [p Hp]. apply find_some in Hp as [Hin E].
    apply String.eqb_eq in E. exists p. by rewrite list_elem_of_In.
  - intros (p & -> & Hin).
    destruct (find (λ q, String.eqb (perm_name q) (perm_name p)) (permissionRepo db))
      eqn:E; [eauto|].
    apply list_elem_of_In in Hin. pose proof (find_none _ _ E p Hin) as Hn.
    simpl in Hn. rewrite String.eqb_refl in Hn. done.
Qed.

(** The names of the rows a [find] by names returns. *)
Lemma permissionRepo_find_names (db : Db) (names : list string) (n : string) :
  n ∈ perm_name <$> permissionRepo_find db names
  ↔ n ∈ names ∧ n ∈ perm_name <$> permissionRepo db.
Proof.
  unfold permissionRepo_find. rewrite !list_elem_of_fmap. split.
  - intros (p & -> & Hp). apply list_elem_of_filter in Hp as [Hinc Hin].
    apply includes_elem_of in Hinc. eauto.
  - intros [Hn (p & -> & Hin)]. exists p. split; [done|].
    apply list_elem_of_filter. split; [by apply includes_elem_of | done].
Qed.

Lemma all_stored (db : Db) (names : list string) :
  Forall (λ n, is_Some (permissionRepo_findOne db n)) names
  ↔ ∀ n, n ∈ names → n ∈ perm_name <$> permissionRepo db.
Proof.
  rewrite Forall_forall.
  split; intros Hall n Hn; apply permissionRepo_findOne_is_Some, Hall, Hn.
Qed.

(** With names that are unique in the table and not repeated in the
    request, the count test of [createRole] passes exactly when every
    requested name is stored. *)
Lemma permissionRepo_find_count (db : Db) (names : list string) :
  NoDup names →
  NoDup (perm_name <$> permissionRepo db) →
  length (permissionRepo_find db names) = length names
  ↔ Forall (λ n, is_Some (permissionRepo_findOne db n)) names.
Proof.
  intros Hnames Htable.
  assert (NoDup (perm_name <$> permissionRepo_find db names)) as Hfound.
  { eapply sublist_NoDup; [exact Htable|].
    apply fmap_sublist, sublist_filter. }
  rewrite all_stored.
  split.
  - intros Hlen n Hn.
    assert (perm_name <$> permissionRepo_find db names ≡ₚ names) as Hperm.
    { apply submseteq_length_Permutation.
      - apply NoDup_submseteq; [done|].
        intros x Hx. by apply permissionRepo_find_names in Hx as [? _].
      - rewrite length_fmap. lia. }
    rewrite <- Hperm in Hn. by apply permissionRepo_find_names in Hn as [_ ?].
  - intros Hall.
    rewrite <- (length_fmap perm_name (permissionRepo_find db names)).
    apply Permutation_length, NoDup_Permutation; [done | done |].
    intros x. rewrite permissionRepo_find_names.
    split; [by intros [? _] | intros Hx; split; [done | by apply Hall]].
Qed.

Lemma createRole_eval (db : Db) (roleName : string) (permissionNames : list string) :
  RBACService.createRole roleName permissionNames db =
  match roleRepo_findOne db roleName with
  | Some _ => (Throw (Error ("Role '" +:+ roleName +:+ "' already exists")), db)
  | None =>
      if (length (permissionRepo_find db permissionNames) =? length permissionNames)%nat
      then roleRepo_save_new roleName (permissionRepo_find db permissionNames) db
      else (Throw (Error "Some permissions not found"), db)
  end.
Proof.
  unfold RBACService.createRole, mbind, M_bind, get, throw.
  destruct (roleRepo_findOne db roleName); [reflexivity|].
  destruct (length _ =? length _)%nat; reflexivity.
Qed.

Lemma createPermission_eval (db : Db) (res act : string) :
  RBACService.createPermission res act db =
  match permissionRepo_findOne db (res +:+ ":" +:+ act) with
  | Some _ =>
      (Throw (Error ("Permission '" +:+ (res +:+ ":" +:+ act) +:+ "' already exists")), db)
  | None => permissionRepo_save_new (res +:+ ":" +:+ act) res act db
  end.
Proof.
  unfold RBACService.createPermission, mbind, M_bind, get, throw.
  destruct (permissionRepo_findOne db _); reflexivity.
Qed.

(** C5, as the code has it: both creations throw the plain [Error]
    "... already exists" exactly when the name is taken; otherwise, for a
    non-empty list of distinct permission names over a table with unique
    names, [createRole] throws "Some permissions not found" exactly when
    one of the names is not stored; otherwise the new row is appended.
    Every failure leaves the tables unchanged. *)
Theorem create_outcomes (db : Db) (roleName res act : string)
    (permissionNames : list string) :
  permissionNames ≠ [] →
  NoDup permissionNames →
  NoDup (perm_name <$> permissionRepo db) →
  createRole_outcome db roleName permissionNames
  ∧ createPermission_outcome db res act.
Proof.
  intros _ Hnames Htable. split.
  - unfold createRole_outcome. rewrite createRole_eval.
    destruct (roleRepo_findOne db roleName); [reflexivity|].
    pose proof (permissionRepo_find_count db permissionNames Hnames Htable) as Hc.
    destruct (decide (Forall _ permissionNames)) as [Hall|Hsome].
    + apply Hc in Hall as Hlen. rewrite Hlen, Nat.eqb_refl.
      eexists _, _. split; [reflexivity|].
      split; [reflexivity|]. split; [|done]. simpl.
      apply NoDup_Permutation; [|done|].
      * eapply sublist_NoDup; [exact Htable|].
        apply fmap_sublist, sublist_filter.
      * intros x. rewrite permissionRepo_find_names.
        pose proof (proj1 (all_stored db permissionNames) Hall) as Hall'.
        split; [by intros [? _] | intros Hx; split; [done | by apply Hall']].
    + destruct (Nat.eqb_spec (length (permissionRepo_find db permissionNames))
                  (length permissionNames)) as [Hlen|_]; [|reflexivity].
      apply Hc in Hlen. done.
  - unfold createPermission_outcome. rewrite createPermission_eval.
    destruct (permissionRepo_findOne db _); [reflexivity|].
    eexists _, _. split; [reflexivity|]. done.
Qed.

(** An instance over the seeded tables: one stored and one unknown
    permission name, and a permission that is already there. *)
Lemma create_outcomes_witness :
  ["transaction:read"; "nothing:here"] ≠ []
  ∧ NoDup ["transaction:read"; "nothing:here"]
  ∧ NoDup (perm_name <$> permissionRepo Sample.seeded)
  ∧ createRole_outcome Sample.seeded "reader" ["transaction:read"; "nothing:here"]
  ∧ createPermission_outcome Sample.seeded "transaction" "read".
Proof.
  assert (NoDup ["transaction:read"; "nothing:here"]) as Hnames.
  { refine (bool_decide_unpack _ _). vm_compute. exact I. }
  assert (NoDup (perm_name <$> permissionRepo Sample.seeded)) as Htable.
  { refine (bool_decide_unpack _ _). vm_compute. exact I. }
  split; [discriminate |]. split; [exact Hnames |]. split; [exact Htable |].
  apply create_outcomes; [discriminate | exact Hnames | exact Htable].
Defined.

(** C5 as stated fails: every name of the list is a stored permission and
    no role is called "reader", yet [createRole] throws "Some permissions
    not found", because the name is listed twice. *)
Lemma createRole_repeated_name :
  roleRepo_findOne Sample.seeded "reader" = None
  ∧ Forall (λ n, is_Some (permissionRepo_findOne Sample.seeded n))
      ["transaction:read"; "transaction:read"]
  ∧ RBACService.createRole "reader" ["transaction:read"; "transaction:read"]
      Sample.seeded
    = (Throw (Error "Some permissions not found"), Sample.seeded).
Proof.
  split; [vm_compute; reflexivity |].
  split; [| vm_compute; reflexivity].
  repeat constructor; vm_compute; eauto.
Qed.

(** ** Seeding and user creation *)

Lemma bind_eval {A B} (m : M A) (k : A → M B) (db : Db) :
  (m ≫= k) db =
  match m db with
  | (Ok a, db') => k a db'
  | (Throw e, db') => (Throw e, db')
  end.
Proof. reflexivity. Qed.

Lemma extends_refl (db : Db) : extends db db.
Proof. split; [done|]. exists []. by rewrite app_nil_r. Qed.

Lemma extends_trans (db1 db2 db3 : Db) :
  extends db1 db2 → extends db2 db3 → extends db1 db3.
Proof.
  intros [Hu1 [e1 Hr1]] [Hu2 [e2 Hr2]]. split; [congruence|].
  exists (e1 ++ e2). by rewrite Hr2, Hr1, app_assoc.
Qed.

Lemma extends_elem_of (db db' : Db) (r : Role) :
  extends db db' → r ∈ roleRepo db → r ∈ roleRepo db'.
Proof. intros [_ [e ->]] Hr. apply elem_of_app. by left. Qed.

Lemma seedPermission_ok (perm : PermissionData) (db : Db) :
  ∃ db', RBACService.seedPermission perm db = (Ok tt, db') ∧ extends db db'.
Proof.
  unfold RBACService.seedPermission. rewrite bind_eval. unfold get.
  destruct (permissionRepo_findOne db (pd_name perm)).
  - eexists. split; [reflexivity | apply extends_refl].
  - eexists. split; [reflexivity|]. split; [done|].
    exists []. simpl. by rewrite app_nil_r.
Qed.

Lemma seedRole_ok (roleData : RoleData) (db : Db) :
  ∃ db', RBACService.seedRole roleData db = (Ok tt, db') ∧ extends db db'
         ∧ ∃ r, r ∈ roleRepo db' ∧ role_name r = rd_name roleData.
Proof.
  unfold RBACService.seedRole. rewrite bind_eval. unfold get.
  destruct (roleRepo_findOne db (rd_name roleData)) as [r|] eqn:Hr.
  - eexists. split; [reflexivity|]. split; [apply extends_refl|].
    exists r. by apply roleRepo_findOne_elem_of.
  - eexists. split; [reflexivity|]. cbn. split.
    + split; [done|]. eexists. reflexivity.
    + eexists. split.
      * apply elem_of_app. right. apply list_elem_of_here.
      * reflexivity.
Qed.

Lemma seedPermissions_ok (table : list PermissionData) (db : Db) :
  ∃ db', for_of table RBACService.seedPermission db = (Ok tt, db') ∧ extends db db'.
Proof.
  revert db. induction table as [|perm table IH]; intros db; simpl.
  - eexists. split; [reflexivity | apply extends_refl].
  - rewrite bind_eval.
    destruct (seedPermission_ok perm db) as (db1 & -> & H1).
    destruct (IH db1) as (db' & -> & H2).
    eexists. split; [reflexivity | by eapply extends_trans].
Qed.

(** After the second loop every role of the table is stored. *)
Lemma seedRoles_ok (table : list RoleData) (db : Db) :
  ∃ db', for_of table RBACService.seedRole db = (Ok tt, db') ∧ extends db db'
         ∧ ∀ roleData, roleData ∈ table →
             ∃ r, r ∈ roleRepo db' ∧ role_name r = rd_name roleData.
Proof.
  revert db. induction table as [|rd table IH]; intros db; simpl.
  - eexists. split; [reflexivity|]. split; [apply extends_refl|].
    intros ? H. by apply elem_of_nil in H.
  - rewrite bind_eval.
    destruct (seedRole_ok rd db) as (db1 & -> & H1 & r & Hr & Hname).
    destruct (IH db1) as (db' & -> & H2 & Hall).
    eexists. split; [reflexivity|]. split; [by eapply extends_trans|].
    intros rd' Hrd'. apply elem_of_cons in Hrd' as [->|Hin]; [|by apply Hall].
    exists r. split; [by eapply extends_elem_of | done].
Qed.

(** Seeding always succeeds and leaves the member role stored. *)
Lemma seedRolesAndPermissions_member (db : Db) :
  ∃ db', RBACService.seedRolesAndPermissions db = (Ok tt, db') ∧ extends db db'
         ∧ roleRepo_find db' [ROLE_ENUM.MEMBER] ≠ [].
Proof.
  unfold RBACService.seedRolesAndPermissions. rewrite bind_eval.
  destruct (seedPermissions_ok APP_PERMISSIONS db) as (db1 & -> & H1).
  destruct (seedRoles_ok APP_ROLES db1) as (db' & -> & H2 & Hall).
  exists db'. split; [reflexivity|]. split; [by eapply extends_trans|].
  destruct (Hall {| rd_name := ROLE_ENUM.MEMBER;
                    rd_description := "Basic member with read-only access";
                    rd_permissions := [ "transaction:read"; "company:read";
                                        "user:read"; "notice:read" ] |})
    as (r & Hr & Hname).
  { unfold APP_ROLES. do 3 apply list_elem_of_further. apply list_elem_of_here. }
  intros Hnil.
  assert (r ∈ roleRepo_find db' [ROLE_ENUM.MEMBER]) as Hin.
  { apply list_elem_of_filter. split; [|done].
    apply includes_elem_of. rewrite Hname. apply list_elem_of_here. }
  rewrite Hnil in Hin. by apply elem_of_nil in Hin.
Qed.

Lemma roleRepo_find_elem_of (db : Db) (names : list string) (r : Role) :
  r ∈ roleRepo_find db names → r ∈ roleRepo db.
Proof. intros H. by apply list_elem_of_filter in H as [_ ?]. Qed.

(** Steps 1 to 3 always yield at least one stored role. *)
Lemma resolveRoles_ok (d : CreateCompanyUserData) (db : Db) :
  ∃ found db',
    UserService.resolveRoles d db = (Ok found, db') ∧ extends db db'
    ∧ found ≠ [] ∧ ∀ r, r ∈ found → r ∈ roleRepo db'.
Proof.
  unfold UserService.resolveRoles. rewrite bind_eval. unfold get at 1.
  destruct (roleRepo_find db (UserService.requestedRoles d)) as [|r0 found0] eqn:H0.
  - rewrite !bind_eval.
    destruct (seedRolesAndPermissions_member db) as (db1 & -> & Hext & Hmember).
    unfold get.
    destruct (roleRepo_find db1 (UserService.requestedRoles d)) as [|r1 found1] eqn:H1.
    + eexists _, _. split; [reflexivity|]. split; [done|]. split; [done|].
      intros r. apply roleRepo_find_elem_of.
    + eexists _, _. split; [reflexivity|]. split; [done|]. split; [done|].
      intros r. rewrite <- H1. apply roleRepo_find_elem_of.
  - rewrite bind_eval. eexists _, _. split; [reflexivity|].
    split; [apply extends_refl|]. split; [done|].
    intros r. rewrite <- H0. apply roleRepo_find_elem_of.
Qed.

Lemma loadRoles_nonempty (db : Db) (row : UserRow) (found : list Role) :
  roles row = role_id <$> found →
  found ≠ [] →
  (∀ r, r ∈ found → r ∈ roleRepo db) →
  loadRoles db row ≠ [].
Proof.
  intros Hrow Hne Hin. unfold loadRoles. rewrite Hrow.
  destruct found as [|r rest]; [done|].
  destruct (find_role_by_id_elem_of r (roleRepo db)) as [r' Hr'].
  { apply Hin, list_elem_of_here. }
  simpl. rewrite Hr'. done.
Qed.

(** Invalidation always succeeds, touches the cache only, and leaves no
    key that matches the list pattern of the company. *)
Lemma invalidateUserCaches_ok (company : string) (userId : option string) (db : Db) :
  ∃ db',
    UserService.invalidateUserCaches company userId db = (Ok tt, db')
    ∧ userRepo db' = userRepo db ∧ roleRepo db' = roleRepo db
    ∧ now db' = now db
    ∧ (∀ key, CacheService.glob_match ("user:list:company:" +:+ company +:+ "*") key = true →
              cache db' !! key = None)
    ∧ (∀ key, is_Some (cache db' !! key) → cache db' !! key = cache db !! key).
Proof.
  unfold UserService.invalidateUserCaches.
  destruct (truthy_string userId); eexists; (split; [reflexivity|]); cbn;
    (split; [done|]); (split; [done|]); (split; [done|]); split.
  - intros key Hkey. apply map_lookup_filter_None. right. intros e He.
    apply map_lookup_filter_Some in He as [_ Hm]. simpl in *. congruence.
  - intros key [e He]. rewrite He.
    apply map_lookup_filter_Some in He as [He _].
    by apply map_lookup_filter_Some in He as [He _].
  - intros key Hkey. apply map_lookup_filter_None. right. intros e He.
    simpl in *. congruence.
  - intros key [e He]. rewrite He.
    by apply map_lookup_filter_Some in He as [He _].
Qed.

(** C10: whatever [createUser] answers, every user row it wrote holds at
    least one role, by id and as loaded from the role table; and a user it
    returns has a role and is the row stored under its id. *)
Theorem createUser_holds_role
    (processEmail : string → string → User → string → bool → result unit)
    (randomBytesHex : Z → string)
    (d : CreateCompanyUserData) (company userId : string) (invited : bool)
    (db db' : Db) (r : result User) :
  UserService.createUser processEmail randomBytesHex d company userId invited db
  = (r, db') →
  (∀ k row,
     userRepo db' !! k = Some row → userRepo db !! k ≠ Some row →
     roles row ≠ [] ∧ loadRoles db' row ≠ [])
  ∧ (∀ u, r = Ok u →
       roles u ≠ []
       ∧ userRepo db' !! id u = Some (with_roles (role_id <$> roles u) u)).
Proof.
  unfold UserService.createUser. rewrite bind_eval. unfold get at 1.
  destruct (userRepo_exists_email db (d_email d)).
  { intros [= <- <-]. split; [intros; congruence | done]. }
  rewrite bind_eval. unfold get at 1.
  destruct (companyRepo db !! company) as [c|].
  2: { intros [= <- <-]. split; [intros; congruence | done]. }
  rewrite bind_eval.
  destruct (resolveRoles_ok d db) as (found & db1 & -> & [Husers [extra Hroles]] & Hne & Hin).
  rewrite bind_eval. cbn [generateId]. rewrite bind_eval. unfold userRepo_save at 1.
  set (u := {| id := pretty (nextId db1); roles := found |}).
  set (db2 := set_userRepo _ _).
  assert (∀ db3, userRepo db3 = userRepo db2 → roleRepo db3 = roleRepo db2 →
            ∀ k row, userRepo db3 !! k = Some row → userRepo db !! k ≠ Some row →
              roles row ≠ [] ∧ loadRoles db3 row ≠ []) as Hrows.
  { intros db3 Hu3 Hr3 k row Hk Hold. rewrite Hu3 in Hk.
    subst db2. cbn in Hk. rewrite Husers in Hk.
    destruct (decide (pretty (nextId db1) = k)) as [<-|Hne'].
    - rewrite lookup_insert_eq in Hk. injection Hk as <-. split.
      + cbn. destruct found; done.
      + apply (loadRoles_nonempty db3 _ found); [reflexivity | done |].
        intros r0 Hr0. rewrite Hr3. cbn. by apply Hin.
    - rewrite lookup_insert_ne in Hk by done. congruence. }
  rewrite bind_eval.
  assert (∃ e : result unit, (if negb invited
                then query (λ _, processEmail (email u) "verify" u (randomBytesHex 16%Z) true)
                else mret tt) db2 = (e, db2)) as [e He].
  { destruct invited; cbn; eauto. }
  rewrite He. destruct e as [[]|err].
  2: { intros [= <- <-]. split; [by apply Hrows | done]. }
  rewrite bind_eval.
  destruct (invalidateUserCaches_ok company None db2) as (db3 & -> & Hu3 & Hr3 & _).
  intros [= <- <-]. split; [by apply Hrows|].
  intros u' [= <-]. split; [done|].
  rewrite Hu3. subst db2. cbn. by rewrite lookup_insert_eq.
Qed.

(** An instance: a user is created in a store without any role, asking
    for a role that does not exist; seeding runs and the user is a member. *)
Lemma createUser_holds_role_witness :
  ∃ u db',
    Sample.createUser (Sample.userData "eve@acme.test" ["accountant"]) "c1" "root"
      false Sample.empty = (Ok u, db')
    ∧ roleRepo_find Sample.empty ["accountant"] = []
    ∧ role_name <$> roles u = ["member"]
    ∧ userRepo db' !! id u = Some (with_roles (role_id <$> roles u) u).
Proof.
  eexists _, _. split; [vm_compute; reflexivity |].
  split; [reflexivity |]. split; [reflexivity |].
  eapply (createUser_holds_role Sample.processEmail Sample.randomBytesHex
            (Sample.userData "eve@acme.test" ["accountant"]) "c1" "root" false
            Sample.empty).
  - vm_compute. reflexivity.
  - reflexivity.
Defined.

(** ** Cached reads *)

Global Instance CacheableOk_User : CacheableOk User.
Proof. split; [done|]. intros [u|p] x; simpl; [|done]. by intros [= ->]. Qed.

Global Instance CacheableOk_UserPage : CacheableOk (PaginatedResponse User).
Proof. split; [done|]. intros [u|p] x; simpl; [done|]. by intros [= ->]. Qed.

Lemma withCache_hit {T} `{CacheableOk T} (key : string) (compute : M T)
    (ttlSeconds : Z) (db : Db) (v : T) :
  CacheService.lookup key db = Some (toCache v) →
  CacheService.withCache key compute true ttlSeconds db = (Ok v, db).
Proof.
  intros Hl. unfold CacheService.withCache. simpl. rewrite Hl. simpl.
  by rewrite ofCache_toCache.
Qed.

(** A second read under the same key, with the clock where it was, is
    answered with the value of the first and runs no computation. *)
Lemma withCache_again {T} `{CacheableOk T} (key : string) (c1 c2 : M T)
    (ttlSeconds : Z) (db db1 : Db) (v : T) :
  (0 < ttlSeconds)%Z →
  (∀ db0 x db0', c1 db0 = (Ok x, db0') → db0' = db0) →
  CacheService.withCache key c1 true ttlSeconds db = (Ok v, db1) →
  CacheService.withCache key c2 true ttlSeconds db1 = (Ok v, db1).
Proof.
  intros Httl Hpure Hfirst. apply withCache_hit.
  revert Hfirst. unfold CacheService.withCache. simpl.
  destruct (CacheService.lookup key db ≫= ofCache) as [x|] eqn:Hl.
  - intros [= <- <-].
    destruct (CacheService.lookup key db) as [c|]; [|done]. simpl in Hl.
    by rewrite (toCache_ofCache c x Hl).
  - destruct (c1 db) as [[x|e] db0] eqn:Hc; [|done].
    intros [= <- <-]. apply Hpure in Hc as ->.
    unfold CacheService.lookup. cbn. rewrite lookup_insert_eq. cbn.
    destruct (Z.ltb_spec (now db) (now db + ttlSeconds * 1000)); [done | lia].
Qed.

(** The list key is made of the company, the page and the limit only. *)
Lemma listCacheKey_eq (p1 p2 : UserQueryParams) (company : string) :
  q_page p1 = q_page p2 → q_limit p1 = q_limit p2 →
  UserService.listCacheKey p1 company = UserService.listCacheKey p2 company.
Proof.
  intros Hp Hl. unfold UserService.listCacheKey, UserService.generateCacheKey.
  simpl. by rewrite Hp, Hl.
Qed.

(** C4, what the code does: two list requests of a company with the same
    page and limit get the same key, whatever their search, status, role
    or sort parameters; so the second is answered from the cache with the
    page computed for the first. *)
Theorem getUsers_filters_collide
    (findAndCount : FindManyOptions → Db → list User * Z)
    (p1 p2 : UserQueryParams) (company : string) (db db1 : Db)
    (page1 : PaginatedResponse User) :
  q_page p1 = q_page p2 →
  q_limit p1 = q_limit p2 →
  UserService.getUsers findAndCount p1 company db = (Ok page1, db1) →
  UserService.listCacheKey p1 company = UserService.listCacheKey p2 company
  ∧ UserService.getUsers findAndCount p2 company db1 = (Ok page1, db1).
Proof.
  intros Hp Hl Hfirst.
  pose proof (listCacheKey_eq p1 p2 company Hp Hl) as Hkey.
  split; [done|]. unfold UserService.getUsers in *. rewrite <- Hkey.
  eapply withCache_again; [| |exact Hfirst].
  - unfold CACHE_CONFIG.list. lia.
  - intros db0 x db0'. cbv beta.
    destruct (findAndCount (UserService.buildQueryFilters p1 company) db0).
    intros Hx. by injection Hx as _ ->.
Qed.

(** An instance: a search for "ann" and a search for "bob" share one key,
    and the second is answered with the page of the first. *)
Lemma getUsers_filters_collide_witness :
  ∃ page1 db1,
    Sample.getUsers (Sample.searchFor "ann") "c1" Sample.staffed = (Ok page1, db1)
    ∧ UserService.buildQueryFilters (Sample.searchFor "ann") "c1"
      ≠ UserService.buildQueryFilters (Sample.searchFor "bob") "c1"
    ∧ UserService.listCacheKey (Sample.searchFor "ann") "c1"
      = "user:list:company:c1:page:1:limit:20"
    ∧ UserService.listCacheKey (Sample.searchFor "bob") "c1"
      = "user:list:company:c1:page:1:limit:20"
    ∧ Sample.getUsers (Sample.searchFor "bob") "c1" db1 = (Ok page1, db1).
Proof.
  eexists _, _. split; [vm_compute; reflexivity |].
  split; [vm_compute; discriminate |].
  split; [vm_compute; reflexivity |].
  split; [vm_compute; reflexivity |].
  eapply (getUsers_filters_collide Sample.findAndCount
            (Sample.searchFor "ann") (Sample.searchFor "bob") "c1" Sample.staffed).
  - reflexivity.
  - reflexivity.
  - vm_compute. reflexivity.
Defined.

(** ** Deleting a user *)

Lemma deleteUser_eval (userId company : string) (db : Db) :
  UserService.deleteUser userId company db =
  match userRepo_findOne_in db userId company with
  | None => (Throw (NotFoundError "User not found"), db)
  | Some user =>
      (Ok "User deleted successfully",
       set_userRepo (alter (with_deletedAt (Some (now db))) (id user)) db)
  end.
Proof.
  unfold UserService.deleteUser. rewrite bind_eval. unfold get.
  destruct (userRepo_findOne_in db userId company); reflexivity.
Qed.

(** C3, what the code does on a delete: the user is gone for the finders,
    and the cache is as it was, so a detail entry and every list page
    cached before the delete are still served after it. *)
Theorem deleteUser_keeps_cache
    (findAndCount : FindManyOptions → Db → list User * Z)
    (userId company msg : string) (db db' : Db) :
  UserService.deleteUser userId company db = (Ok msg, db') →
  cache db' = cache db
  ∧ userRepo_findOne db' userId = None
  ∧ (∀ u, CacheService.lookup ("user:detail:" +:+ userId) db = Some (CachedUser u) →
          UserService.getUserById userId company db' = (Ok u, db'))
  ∧ (∀ params page,
       CacheService.lookup (UserService.listCacheKey params company) db
       = Some (CachedUserPage page) →
       UserService.getUsers findAndCount params company db' = (Ok page, db')).
Proof.
  rewrite deleteUser_eval.
  destruct (userRepo_findOne_in db userId company) as [user|] eqn:Hu; [|done].
  intros [= <- <-].
  unfold userRepo_findOne_in in Hu.
  destruct (userRepo_findOne db userId) as [user'|] eqn:Hu'; [|done].
  simpl in Hu. destruct (String.eqb (companyId user') company); [|done].
  injection Hu as ->.
  destruct (userRepo_findOne_Some _ _ _ Hu') as (row & Hrow & -> & Hid & _).
  split; [done|]. split; [|split].
  - unfold userRepo_findOne. cbn. rewrite Hid, lookup_alter_eq, Hrow. done.
  - intros u Hl. unfold UserService.getUserById.
    by apply (withCache_hit (T := User)).
  - intros params page Hl. unfold UserService.getUsers.
    by apply (withCache_hit (T := PaginatedResponse User)).
Qed.

(** An instance: user ["20"] is deleted after its detail and the list
    page were cached; both reads still answer with the deleted user. *)
Lemma deleteUser_keeps_cache_witness :
  ∃ u page msg db',
    CacheService.lookup "user:detail:20" Sample.warmed = Some (CachedUser u)
    ∧ CacheService.lookup (UserService.listCacheKey Sample.noFilter "c1") Sample.warmed
      = Some (CachedUserPage page)
    ∧ "20" ∈ id <$> data page
    ∧ UserService.deleteUser "20" "c1" Sample.warmed = (Ok msg, db')
    ∧ userRepo_findOne db' "20" = None
    ∧ UserService.getUserById "20" "c1" db' = (Ok u, db')
    ∧ Sample.getUsers Sample.noFilter "c1" db' = (Ok page, db').
Proof.
  eexists _, _, _, _. split; [vm_compute; reflexivity |].
  split; [vm_compute; reflexivity |].
  split; [vm_compute; set_solver |].
  match goal with
  | |- ?deleted ∧ _ => assert deleted as Hdel by (vm_compute; reflexivity)
  end.
  split; [exact Hdel |].
  destruct (deleteUser_keeps_cache Sample.findAndCount _ _ _ _ _ Hdel)
    as (_ & Hgone & Hdetail & Hlist).
  split; [exact Hgone |]. split.
  - apply Hdetail. vm_compute. reflexivity.
  - apply Hlist. vm_compute. reflexivity.
Defined.

(** ** Invalidation on the creating path *)

Lemma glob_match_star_nil (key : string) : CacheService.glob_match "*" key = true.
Proof.
  simpl. induction key as [|c key IH]; [done|].
  simpl in *. by rewrite IH.
Qed.

(** A pattern that ends in [*] matches every key it is a prefix of. *)
Lemma glob_match_prefix (prefix rest : string) :
  CacheService.glob_match (prefix +:+ "*") (prefix +:+ rest) = true.
Proof.
  induction prefix as [|c prefix IH].
  - apply glob_match_star_nil.
  - change (CacheService.glob_match (String c (prefix +:+ "*"))
              (String c (prefix +:+ rest)) = true).
    cbn [CacheService.glob_match].
    destruct (Ascii.eqb c "*").
    + apply orb_true_iff. right. revert IH.
      generalize (prefix +:+ rest). intros k Hk.
      destruct k; rewrite Hk; reflexivity.
    + by rewrite Ascii.eqb_refl, IH.
Qed.

Lemma string_app_assoc (a b c : string) : (a +:+ b) +:+ c = a +:+ (b +:+ c).
Proof.
  induction a as [|x a IH]; [done|].
  change (String x ((a +:+ b) +:+ c) = String x (a +:+ (b +:+ c))). by f_equal.
Qed.

Lemma string_app_nil_r (a : string) : a +:+ EmptyString = a.
Proof.
  induction a as [|x a IH]; [done|].
  change (String x (a +:+ EmptyString) = String x a). by f_equal.
Qed.

(** Every list key of a company begins with the prefix that
    [invalidateUserCaches] deletes by. *)
Lemma listCacheKey_prefix (params : UserQueryParams) (company : string) :
  company ≠ EmptyString →
  ∃ rest, UserService.listCacheKey params company
          = ("user:list:company:" +:+ company) +:+ rest.
Proof.
  intros Hc. unfold UserService.listCacheKey, UserService.generateCacheKey.
  cbn [kp_id kp_companyId kp_page kp_limit truthy_string default].
  destruct (String.eqb_spec company EmptyString) as [|_]; [done|]. cbn [negb].
  destruct (truthy_number (q_page params)), (truthy_number (q_limit params)).
  - exists (":" +:+ ("page:" +:+ pretty (default 0%Z (q_page params)))
              +:+ ":" +:+ ("limit:" +:+ pretty (default 0%Z (q_limit params)))).
    reflexivity.
  - exists (":" +:+ ("page:" +:+ pretty (default 0%Z (q_page params)))).
    reflexivity.
  - exists (":" +:+ ("limit:" +:+ pretty (default 0%Z (q_limit params)))).
    reflexivity.
  - exists EmptyString. rewrite string_app_nil_r. reflexivity.
Qed.

Lemma invalidateUserCaches_lists (company : string) (userId : option string)
    (db db' : Db) (params : UserQueryParams) :
  company ≠ EmptyString →
  UserService.invalidateUserCaches company userId db = (Ok tt, db') →
  cache db' !! UserService.listCacheKey params company = None.
Proof.
  intros Hc Hinv.
  destruct (invalidateUserCaches_ok company userId db) as (db2 & E & _ & _ & _ & Hlists & _).
  rewrite E in Hinv. injection Hinv as <-.
  apply Hlists.
  destruct (listCacheKey_prefix params company Hc) as [rest ->].
  rewrite <- string_app_assoc. apply glob_match_prefix.
Qed.

(** The creating path does invalidate: after a [createUser] that returned,
    no list page of the company is left in the cache. *)
Lemma createUser_invalidates_lists
    (processEmail : string → string → User → string → bool → result unit)
    (randomBytesHex : Z → string)
    (d : CreateCompanyUserData) (company userId : string) (invited : bool)
    (db db' : Db) (u : User) (params : UserQueryParams) :
  company ≠ EmptyString →
  UserService.createUser processEmail randomBytesHex d company userId invited db
  = (Ok u, db') →
  cache db' !! UserService.listCacheKey params company = None.
Proof.
  intros Hc. unfold UserService.createUser. rewrite bind_eval. unfold get at 1.
  destruct (userRepo_exists_email db (d_email d)); [done|].
  rewrite bind_eval. unfold get at 1.
  destruct (companyRepo db !! company) as [c|]; [|done].
  rewrite bind_eval.
  destruct (resolveRoles_ok d db) as (found & db1 & -> & _).
  rewrite bind_eval. cbn [generateId]. rewrite bind_eval. unfold userRepo_save at 1.
  set (saved := {| id := pretty (nextId db1); roles := found |}).
  set (db2 := set_userRepo _ _).
  rewrite bind_eval.
  destruct ((if negb invited
             then query (λ _, processEmail (email saved) "verify" saved
                                (randomBytesHex 16%Z) true)
             else mret tt) db2) as [[[]|e] db3] eqn:Hmail; [|done].
  rewrite bind_eval.
  destruct (UserService.invalidateUserCaches company None db3)
    as [[[]|e] db4] eqn:Hinv; [|done].
  intros [= _ <-]. by eapply invalidateUserCaches_lists.
Qed.

(** ** Delayed analytics jobs *)

Lemma calculateAnalytics_eval (company : string) (type : AnalyticsType)
    (userId : string) (db : Db) :
  QueueService.calculateAnalytics company type userId db =
  let j := {| job_id := pretty (nextId db);
              job_name := "calculate-analytics";
              job_data := {| job_companyId := company; job_type := type;
                             job_userId := userId |};
              job_delay := 2000; job_timestamp := now db |} in
  (Ok j, set_analyticsQueue (λ q, q ++ [j]) (generateId db).2).
Proof. reflexivity. Qed.

(** C8, what the code does: four requests for one tenant, each after the
    other, leave four jobs in the queue, with the same payload and each
    with its own delay of 2000 ms; none is visible before 2000 ms have
    passed since the first request, and all four are visible once 2000 ms
    have passed since the last. *)
Theorem analyticsBurst_enqueues_four (company : string) (type : AnalyticsType)
    (userId : string) (d1 d2 d3 : Z) (db : Db) :
  (0 ≤ d1)%Z → (0 ≤ d2)%Z → (0 ≤ d3)%Z →
  ∃ j1 j2 j3 j4 db',
    analyticsBurst company type userId d1 d2 d3 db = (Ok [j1; j2; j3; j4], db')
    ∧ analyticsQueue db' = analyticsQueue db ++ [j1; j2; j3; j4]
    ∧ Forall (λ j, job_data j = {| job_companyId := company; job_type := type;
                                   job_userId := userId |}
                   ∧ job_delay j = 2000%Z) [j1; j2; j3; j4]
    ∧ (∀ t, (t < now db + 2000)%Z →
            Forall (λ j, Queue.eligible t j = false) [j1; j2; j3; j4])
    ∧ (∀ t, (now db + d1 + d2 + d3 + 2000 ≤ t)%Z →
            Forall (λ j, Queue.eligible t j = true) [j1; j2; j3; j4]).
Proof.
  intros H1 H2 H3. eexists _, _, _, _, _.
  split; [reflexivity|]. cbn.
  split; [by rewrite <- !app_assoc |].
  split; [repeat constructor |].
  split; intros t Ht; repeat constructor; unfold Queue.eligible; cbn.
  all: try (apply Z.leb_gt; lia); try (apply Z.leb_le; lia).
Qed.

(** An instance: four requests 500 ms apart; at 1999 ms no job is
    visible, at 3500 ms all four are. *)
Lemma analyticsBurst_enqueues_four_witness :
  ∃ jobs db',
    analyticsBurst "c1" summary "system" 500 500 500 Sample.empty = (Ok jobs, db')
    ∧ length jobs = 4
    ∧ eligibleJobs "c1" 1999 db' = []
    ∧ eligibleJobs "c1" 3500 db' = jobs.
Proof.
  destruct (analyticsBurst_enqueues_four "c1" summary "system" 500 500 500
              Sample.empty) as (j1 & j2 & j3 & j4 & db' & Hrun & _);
    [lia | lia | lia |].
  exists [j1; j2; j3; j4], db'. split; [exact Hrun |].
  split; [reflexivity |].
  vm_compute in Hrun. injection Hrun as <- <- <- <- <-.
  split; vm_compute; reflexivity.
Defined.


(** * Further properties of the services *)

(** ** Permission and role queries *)

Lemma hasPermission_true (db : Db) (userId res act : string) :
  RBACService.hasPermission db userId res act = Ok true
  ↔ ∃ user, userRepo_findOne db userId = Some user
            ∧ RBACService.checkUserPermission user res act = true.
Proof.
  unfold RBACService.hasPermission.
  destruct (userRepo_findOne db userId) as [user|].
  - split.
    + intros [= E]. eauto.
    + intros (u & [= <-] & ->). done.
  - split; [done | intros (u & ? & _); done].
Qed.

Lemma hasAnyPermission_true (db : Db) (userId res : string) (actions : list string) :
  RBACService.hasAnyPermission db userId res actions = Ok true
  ↔ ∃ act, act ∈ actions ∧ RBACService.hasPermission db userId res act = Ok true.
Proof.
  unfold RBACService.hasAnyPermission. setoid_rewrite hasPermission_true.
  destruct (userRepo_findOne db userId) as [user|] eqn:Hu.
  - split.
    + intros [= E]. apply existsb_elem_of in E as (act & Hin & Hact).
      exists act. split; [done|]. eauto.
    + intros (act & Hin & u & [= <-] & Hact). f_equal.
      apply existsb_elem_of. eauto.
  - split; [done | intros (act & _ & u & ? & _); done].
Qed.

Lemma hasAllPermissions_true (db : Db) (userId res : string) (actions : list string) :
  RBACService.hasAllPermissions db userId res actions = Ok true
  ↔ is_Some (userRepo_findOne db userId)
    ∧ ∀ act, act ∈ actions → RBACService.hasPermission db userId res act = Ok true.
Proof.
  unfold RBACService.hasAllPermissions. setoid_rewrite hasPermission_true.
  destruct (userRepo_findOne db userId) as [user|] eqn:Hu.
  - split.
    + intros [= E]. split; [eauto|]. intros act Hin.
      exists user. split; [done|].
      rewrite forallb_forall in E. apply E. by apply list_elem_of_In.
    + intros [_ Hall]. f_equal. apply forallb_forall. intros act Hin.
      apply list_elem_of_In in Hin.
      destruct (Hall act Hin) as (u & [= <-] & Hact). done.
  - split; [done | intros [[u ?] _]; done].
Qed.

(** X1: [hasAnyPermission] answers [true] exactly when [hasPermission]
    does for one of the actions, and [hasAllPermissions] exactly when the
    principal is found and [hasPermission] does for each of them; neither
    throws. *)
Theorem hasAny_hasAll_permissions (db : Db) (userId res : string)
    (actions : list string) :
  (RBACService.hasAnyPermission db userId res actions = Ok true
   ↔ ∃ act, act ∈ actions ∧ RBACService.hasPermission db userId res act = Ok true)
  ∧ (RBACService.hasAllPermissions db userId res actions = Ok true
     ↔ is_Some (userRepo_findOne db userId)
       ∧ ∀ act, act ∈ actions →
           RBACService.hasPermission db userId res act = Ok true)
  ∧ throws (RBACService.hasAnyPermission db userId res actions) = false
  ∧ throws (RBACService.hasAllPermissions db userId res actions) = false.
Proof.
  split; [apply hasAnyPermission_true|]. split; [apply hasAllPermissions_true|].
  unfold RBACService.hasAnyPermission, RBACService.hasAllPermissions.
  destruct (userRepo_findOne db userId); done.
Qed.

(** X2: a principal that holds the universal permission [*:*] through one
    of its roles passes [hasPermission] for every resource and action, and
    [hasAllPermissions] for every list of actions. *)
Theorem universal_permission (db : Db) (userId : string) (user : User)
    (role : Role) (p : Permission) :
  userRepo_findOne db userId = Some user →
  role ∈ roles user →
  p ∈ permissions role →
  resource p = "*" → action p = "*" →
  ∀ (res act : string) (actions : list string),
    RBACService.hasPermission db userId res act = Ok true
    ∧ RBACService.hasAllPermissions db userId res actions = Ok true.
Proof.
  intros Hu Hrole Hp Hres Hact res act actions.
  assert (∀ a, RBACService.hasPermission db userId res a = Ok true) as Hall.
  { intros a. apply hasPermission_true. exists user. split; [done|].
    apply checkUserPermission_true.
    exists role. split; [done|]. exists p. split; [done|].
    right. right. done. }
  split; [apply Hall|].
  apply hasAllPermissions_true. split; [eauto|]. intros a _. apply Hall.
Qed.

(** An instance: the super administrator ["21"] of the sample store. *)
Lemma universal_permission_witness :
  RBACService.hasPermission Sample.crowned "21" "payroll" "approve" = Ok true
  ∧ RBACService.hasAllPermissions Sample.crowned "21" "payroll"
      ["approve"; "void"] = Ok true.
Proof.
  eapply (universal_permission Sample.crowned "21").
  - vm_compute. reflexivity.
  - apply list_elem_of_here.
  - apply list_elem_of_here.
  - reflexivity.
  - reflexivity.
Defined.

Lemma hasRole_true (db : Db) (userId roleName : string) :
  RBACService.hasRole db userId roleName = Ok true
  ↔ ∃ user, userRepo_findOne db userId = Some user
            ∧ roleName ∈ role_name <$> roles user.
Proof.
  unfold RBACService.hasRole.
  destruct (userRepo_findOne db userId) as [user|].
  - split.
    + intros [= E]. exists user. split; [done|].
      apply existsb_elem_of in E as (r & Hr & E). apply String.eqb_eq in E.
      apply list_elem_of_fmap. eauto.
    + intros (u & [= <-] & Hin). f_equal.
      apply list_elem_of_fmap in Hin as (r & -> & Hr).
      apply existsb_elem_of. exists r. split; [done | apply String.eqb_refl].
  - split; [done | intros (u & ? & _); done].
Qed.

Lemma hasAnyRole_true (db : Db) (userId : string) (roleNames : list string) :
  RBACService.hasAnyRole db userId roleNames = Ok true
  ↔ ∃ name, name ∈ roleNames ∧ RBACService.hasRole db userId name = Ok true.
Proof.
  unfold RBACService.hasAnyRole. setoid_rewrite hasRole_true.
  destruct (userRepo_findOne db userId) as [user|] eqn:Hu.
  - split.
    + intros [= E]. apply existsb_elem_of in E as (name & Hin & Hname).
      apply includes_elem_of in Hname. exists name. split; [done|]. eauto.
    + intros (name & Hin & u & [= <-] & Hname). f_equal.
      apply existsb_elem_of. exists name. split; [done|].
      by apply includes_elem_of.
  - split; [done | intros (name & _ & u & ? & _); done].
Qed.

(** X3: [hasAnyRole] answers [true] exactly when [hasRole] does for one of
    the names, and [hasAllRoles] exactly when the principal is found and
    [hasRole] does for each name; so with no name at all [hasAllRoles]
    accepts every principal that is found and [hasAnyRole] accepts none. *)
Theorem hasAny_hasAll_roles (db : Db) (userId : string) (roleNames : list string) :
  (RBACService.hasAnyRole db userId roleNames = Ok true
   ↔ ∃ name, name ∈ roleNames ∧ RBACService.hasRole db userId name = Ok true)
  ∧ (RBACService.hasAllRoles db userId roleNames = Ok true
     ↔ is_Some (userRepo_findOne db userId)
       ∧ ∀ name, name ∈ roleNames → RBACService.hasRole db userId name = Ok true)
  ∧ RBACService.hasAnyRole db userId [] = Ok false
  ∧ throws (RBACService.hasAnyRole db userId roleNames) = false
  ∧ throws (RBACService.hasAllRoles db userId roleNames) = false.
Proof.
  unfold RBACService.hasAnyRole, RBACService.hasAllRoles.
  setoid_rewrite hasRole_true.
  destruct (userRepo_findOne db userId) as [user|] eqn:Hu.
  - split; [|split; [|done]].
    + split.
      * intros [= E]. apply existsb_elem_of in E as (name & Hin & Hname).
        apply includes_elem_of in Hname. exists name. split; [done|]. eauto.
      * intros (name & Hin & u & [= <-] & Hname). f_equal.
        apply existsb_elem_of. exists name. split; [done|].
        by apply includes_elem_of.
    + split.
      * intros [= E]. split; [eauto|]. intros name Hin.
        exists user. split; [done|]. apply includes_elem_of.
        rewrite forallb_forall in E. apply E. by apply list_elem_of_In.
      * intros [_ Hall]. f_equal. apply forallb_forall. intros name Hin.
        apply list_elem_of_In in Hin.
        destruct (Hall name Hin) as (u & [= <-] & Hname).
        by apply includes_elem_of.
  - split; [|split; [|done]].
    + split; [done | intros (name & _ & u & ? & _); done].
    + split; [done | intros [[u ?] _]; done].
Qed.

(** ** Listing the permissions of a principal *)

Lemma Set_add_elem_of (acc : list string) (x s : string) :
  s ∈ Set_add acc x ↔ s ∈ acc ∨ s = x.
Proof.
  unfold Set_add. destruct (includes acc x) eqn:E.
  - apply includes_elem_of in E. split; [by left | intros [?| ->]; done].
  - rewrite elem_of_app, list_elem_of_singleton. done.
Qed.

Lemma Set_add_NoDup (acc : list string) (x : string) :
  NoDup acc → NoDup (Set_add acc x).
Proof.
  intros Hnd. unfold Set_add. destruct (includes acc x) eqn:E; [done|].
  apply NoDup_app. split; [done|]. split; [|apply NoDup_singleton].
  intros y Hy Hx. apply list_elem_of_singleton in Hx as ->.
  apply includes_elem_of in Hy. congruence.
Qed.

Lemma add_permissions (ps : list Permission) (acc : list string) :
  let out := foldl (λ acc p, Set_add acc (resource p +:+ ":" +:+ action p)) acc ps in
  (NoDup acc → NoDup out)
  ∧ ∀ s, s ∈ out ↔ s ∈ acc ∨ ∃ p, p ∈ ps ∧ s = permissionString p.
Proof.
  revert acc. induction ps as [|p ps IH]; intros acc; simpl.
  - split; [done|]. intros s. split; [by left|].
    intros [?|(p & Hp & _)]; [done | by apply elem_of_nil in Hp].
  - destruct (IH (Set_add acc (resource p +:+ ":" +:+ action p))) as [Hnd Hin].
    split; [intros H; by apply Hnd, Set_add_NoDup|].
    intros s. rewrite Hin, Set_add_elem_of. split.
    + intros [[?| ->]|(q & Hq & ->)]; [by left | right | right].
      * exists p. split; [apply list_elem_of_here | done].
      * exists q. split; [by apply list_elem_of_further | done].
    + intros [?|(q & Hq & ->)]; [by left; left|].
      apply elem_of_cons in Hq as [->|Hq]; [left; by right | right; eauto].
Qed.

Lemma add_roles (rs : list Role) (acc : list string) :
  let out :=
    foldl (λ acc role,
             foldl (λ acc p, Set_add acc (resource p +:+ ":" +:+ action p))
                   acc (permissions role)) acc rs in
  (NoDup acc → NoDup out)
  ∧ ∀ s, s ∈ out ↔
      s ∈ acc ∨ ∃ role p, role ∈ rs ∧ p ∈ permissions role ∧ s = permissionString p.
Proof.
  revert acc. induction rs as [|r rs IH]; intros acc; simpl.
  - split; [done|]. intros s. split; [by left|].
    intros [?|(role & p & Hr & _)]; [done | by apply elem_of_nil in Hr].
  - destruct (add_permissions (permissions r) acc) as [Hnd1 Hin1].
    destruct (IH (foldl (λ acc p, Set_add acc (resource p +:+ ":" +:+ action p))
                        acc (permissions r))) as [Hnd Hin].
    split; [intros H; by apply Hnd, Hnd1|].
    intros s. rewrite Hin, Hin1. split.
    + intros [[?|(p & Hp & ->)]|(role & p & Hr & Hp & ->)]; [by left | right | right].
      * exists r, p. split; [apply list_elem_of_here | done].
      * exists role, p. split; [by apply list_elem_of_further | done].
    + intros [?|(role & p & Hr & Hp & ->)]; [by left; left|].
      apply elem_of_cons in Hr as [->|Hr]; [left; right; eauto | right; eauto].
Qed.

Lemma getUserPermissions_elem_of (db : Db) (userId : string) :
  ∃ names,
    RBACService.getUserPermissions db userId = Ok names
    ∧ NoDup names
    ∧ ∀ s, s ∈ names ↔
        ∃ user role p,
          userRepo_findOne db userId = Some user
          ∧ role ∈ roles user ∧ p ∈ permissions role ∧ s = permissionString p.
Proof.
  unfold RBACService.getUserPermissions.
  destruct (userRepo_findOne db userId) as [user|] eqn:Hu.
  - eexists. split; [reflexivity|].
    destruct (add_roles (roles user) []) as [Hnd Hin].
    split; [apply Hnd, NoDup_nil_2|].
    intros s. rewrite Hin. split.
    + intros [H|(role & p & H)]; [by apply elem_of_nil in H|]. exists user. eauto.
    + intros (u & role & p & [= <-] & H). right. eauto.
  - exists []. split; [done|]. split; [apply NoDup_nil_2|].
    intros s. split; [intros H; by apply elem_of_nil in H|].
    intros (u & _ & _ & ? & _). done.
Qed.

(** X4: [getUserPermissions] never throws; its list has no repetition and
    holds exactly the strings [resource:action] of the permissions of the
    roles the principal holds; for an id without principal it is empty. *)
Theorem getUserPermissions_spec (db : Db) (userId : string) :
  ∃ names,
    RBACService.getUserPermissions db userId = Ok names
    ∧ NoDup names
    ∧ (∀ s, s ∈ names ↔
         ∃ user role p,
           userRepo_findOne db userId = Some user
           ∧ role ∈ roles user ∧ p ∈ permissions role ∧ s = permissionString p)
    ∧ (userRepo_findOne db userId = None → names = []).
Proof.
  destruct (getUserPermissions_elem_of db userId) as (names & Hrun & Hnd & Hin).
  exists names. split; [done|]. split; [done|]. split; [done|].
  intros Hnone. unfold RBACService.getUserPermissions in Hrun.
  rewrite Hnone in Hrun. by injection Hrun as <-.
Qed.

(** X5: whenever [hasPermission] answers [true] for a pair, the list of
    [getUserPermissions] holds the pair, or the resource with [*], or
    [*:*]. *)
Theorem hasPermission_listed (db : Db) (userId res act : string) :
  RBACService.hasPermission db userId res act = Ok true →
  ∃ names,
    RBACService.getUserPermissions db userId = Ok names
    ∧ (res +:+ ":" +:+ act ∈ names
       ∨ res +:+ ":" +:+ "*" ∈ names
       ∨ "*:*" ∈ names).
Proof.
  intros Hhas. apply hasPermission_true in Hhas as (user & Hu & Hcheck).
  apply checkUserPermission_true in Hcheck as (role & Hrole & p & Hp & Hgrant).
  destruct (getUserPermissions_elem_of db userId) as (names & Hrun & _ & Hin).
  exists names. split; [done|].
  assert (permissionString p ∈ names) as Hlisted.
  { apply Hin. exists user, role, p. done. }
  unfold permissionString in Hlisted.
  destruct Hgrant as [[Hr Ha]|[[Hr Ha]|[Hr Ha]]]; rewrite Hr, Ha in Hlisted; tauto.
Qed.

(** An instance: the member ["20"] may read transactions, and the
    permission is in its list. *)
Lemma hasPermission_listed_witness :
  RBACService.hasPermission Sample.staffed "20" "transaction" "read" = Ok true
  ∧ RBACService.getUserPermissions Sample.staffed "20"
    = Ok ["transaction:read"; "company:read"; "user:read"; "notice:read"].
Proof.
  assert (RBACService.hasPermission Sample.staffed "20" "transaction" "read" = Ok true)
    as Hhas by (vm_compute; reflexivity).
  split; [exact Hhas|].
  destruct (hasPermission_listed _ _ _ _ Hhas) as (names & Hrun & _).
  rewrite Hrun. f_equal. vm_compute in Hrun. by injection Hrun as <-.
Defined.

(** ** Saving a role set and reading it back *)

Lemma loadRoles_canonical (db : Db) (row : UserRow) (r : Role) :
  r ∈ loadRoles db row → canonical db r.
Proof.
  unfold loadRoles, canonical. intros Hr.
  apply list_elem_of_omap in Hr as (rid & _ & Hfind).
  by rewrite (find_role_by_id _ _ _ Hfind).
Qed.

Lemma reload_canonical (db : Db) (held : list Role) :
  Forall (canonical db) held →
  omap (λ rid, find (λ r, String.eqb (role_id r) rid) (roleRepo db))
       (role_id <$> held) = held.
Proof.
  induction 1 as [|r held Hr _ IH]; [done|].
  simpl. unfold canonical in Hr. rewrite Hr. simpl. by f_equal.
Qed.

(** With unique ids every stored role is canonical. *)
Lemma stored_canonical (db : Db) (r : Role) :
  NoDup (role_id <$> roleRepo db) → r ∈ roleRepo db → canonical db r.
Proof.
  unfold canonical. induction (roleRepo db) as [|x table IH]; intros Hnd Hr.
  - by apply elem_of_nil in Hr.
  - rewrite fmap_cons in Hnd. apply NoDup_cons in Hnd as [Hx Hnd]. simpl.
    apply elem_of_cons in Hr as [->|Hr]; [by rewrite String.eqb_refl|].
    destruct (String.eqb_spec (role_id x) (role_id r)) as [E|_]; [|by apply IH].
    exfalso. apply Hx. rewrite E. by apply list_elem_of_fmap_2.
Qed.

(** The entity that was saved is the entity the finder returns next. *)
Lemma save_reload (db : Db) (userId : string) (user : User) (held : list Role) :
  userRepo_findOne db userId = Some user →
  Forall (canonical db) held →
  ∃ db',
    userRepo_save (with_roles held user) db = (Ok (with_roles held user), db')
    ∧ userRepo_findOne db' userId = Some (with_roles held user)
    ∧ roleRepo db' = roleRepo db ∧ permissionRepo db' = permissionRepo db
    ∧ cache db' = cache db
    ∧ userRepo db' = <[userId := with_roles (role_id <$> held) user]> (userRepo db).
Proof.
  intros Hu Hheld.
  destruct (userRepo_findOne_Some _ _ _ Hu) as (row & Hrow & -> & Hid & Hdel).
  eexists. split; [reflexivity|]. cbn. rewrite Hid.
  split; [|done].
  unfold userRepo_findOne. cbn. rewrite lookup_insert_eq. cbn.
  unfold live. cbn. rewrite Hdel, Hid, String.eqb_refl. cbn.
  f_equal. unfold loadUser, loadRoles. cbn.
  rewrite (reload_canonical db held Hheld). done.
Qed.

Lemma found_canonical (db : Db) (userId : string) (user : User) :
  userRepo_findOne db userId = Some user → Forall (canonical db) (roles user).
Proof.
  intros Hu.
  destruct (userRepo_findOne_Some _ _ _ Hu) as (row & _ & -> & _).
  apply Forall_forall. intros r Hr. exact (loadRoles_canonical db row r Hr).
Qed.

Lemma save_same (db : Db) (userId : string) (user : User) :
  userRepo_findOne db userId = Some user →
  userRepo db !! userId = Some (with_roles (role_id <$> roles user) user) →
  userRepo_save user db = (Ok user, db).
Proof.
  intros Hu Hrow. unfold userRepo_save. f_equal.
  destruct (userRepo_findOne_Some _ _ _ Hu) as (row & _ & -> & Hid & _).
  destruct db. unfold set_userRepo. cbn in *. f_equal.
  rewrite Hid. by apply insert_id.
Qed.

(** ** Removing roles *)

Lemma hasRole_found (db : Db) (userId name : string) (user : User) :
  userRepo_findOne db userId = Some user →
  RBACService.hasRole db userId name
  = Ok (existsb (λ role, String.eqb (role_name role) name) (roles user)).
Proof. intros Hu. unfold RBACService.hasRole. by rewrite Hu. Qed.

Lemma existsb_filter_name (keep : string → bool) (name : string) (held : list Role) :
  existsb (λ role, String.eqb (role_name role) name)
          (filter (λ role, keep (role_name role) = true) held)
  = keep name && existsb (λ role, String.eqb (role_name role) name) held.
Proof.
  induction held as [|r held IH]; [by rewrite andb_false_r|].
  rewrite filter_cons. simpl.
  destruct (decide (keep (role_name r) = true)) as [Hk|Hk]; simpl; rewrite IH.
  - destruct (String.eqb_spec (role_name r) name) as [<-|_]; simpl.
    + by rewrite Hk.
    + done.
  - destruct (String.eqb_spec (role_name r) name) as [<-|_]; simpl.
    + apply not_true_is_false in Hk. by rewrite Hk.
    + done.
Qed.

Lemma filter_twice {A} (P : A → Prop) `{∀ x, Decision (P x)} (l : list A) :
  filter P (filter P l) = filter P l.
Proof.
  induction l as [|x l IH]; [done|].
  rewrite filter_cons. destruct (decide (P x)) as [Hx|Hx]; [|done].
  rewrite filter_cons. destruct (decide (P x)); [by f_equal | done].
Qed.

(** What a removal by a name test does to a principal that is found. *)
Lemma remove_by (db : Db) (userId : string) (user : User) (keep : string → bool) :
  userRepo_findOne db userId = Some user →
  let held := filter (λ role, keep (role_name role) = true) (roles user) in
  ∃ db',
    userRepo_save (with_roles held user) db = (Ok (with_roles held user), db')
    ∧ userRepo_findOne db' userId = Some (with_roles held user)
    ∧ roleRepo db' = roleRepo db
    ∧ (∀ name, RBACService.hasRole db' userId name
               = Ok (keep name && existsb (λ role, String.eqb (role_name role) name)
                                          (roles user)))
    ∧ userRepo_save (with_roles held (with_roles held user)) db'
      = (Ok (with_roles held user), db').
Proof.
  intros Hu held.
  assert (Forall (canonical db) held) as Hcan.
  { pose proof (found_canonical db userId user Hu) as Hall.
    rewrite Forall_forall in Hall. apply Forall_forall. intros r Hr.
    apply list_elem_of_filter in Hr as [_ Hr]. by apply Hall. }
  destruct (save_reload db userId user held Hu Hcan)
    as (db' & Hsave & Hu' & Hroles & _ & _ & Hrows).
  exists db'. split; [done|]. split; [done|]. split; [done|]. split.
  - intros name. rewrite (hasRole_found _ _ _ _ Hu'). f_equal.
    apply existsb_filter_name.
  - change (with_roles held (with_roles held user)) with (with_roles held user).
    apply (save_same db' userId); [done|]. rewrite Hrows, lookup_insert_eq. done.
Qed.

(** X6: [removeRole] throws "User not found" and writes nothing when the
    principal is not found.  Otherwise it returns; afterwards the
    principal holds no role of that name, every other name is held as
    before, and a second removal changes nothing. *)
Theorem removeRole_spec (db : Db) (userId roleName : string) :
  match userRepo_findOne db userId with
  | None =>
      RBACService.removeRole userId roleName db
      = (Throw (Error "User not found"), db)
  | Some user =>
      ∃ db',
        RBACService.removeRole userId roleName db = (Ok tt, db')
        ∧ RBACService.hasRole db' userId roleName = Ok false
        ∧ (∀ name, name ≠ roleName →
             RBACService.hasRole db' userId name = RBACService.hasRole db userId name)
        ∧ RBACService.removeRole userId roleName db' = (Ok tt, db')
  end.
Proof.
  destruct (userRepo_findOne db userId) as [user|] eqn:Hu.
  - destruct (remove_by db userId user
                (λ name, negb (String.eqb name roleName)) Hu)
      as (db' & Hsave & Hu' & _ & Hhas & Hagain).
    assert (∀ held : list Role,
              filter (λ role, String.eqb (role_name role) roleName = false) held
              = filter (λ role, negb (String.eqb (role_name role) roleName) = true) held)
      as Hfilter.
    { intros held. apply list_filter_iff. intros r.
      by destruct (String.eqb (role_name r) roleName). }
    exists db'. split; [|split; [|split]].
    + unfold RBACService.removeRole. rewrite bind_eval. unfold get. rewrite Hu.
      rewrite bind_eval, Hfilter, Hsave. done.
    + rewrite Hhas, String.eqb_refl. done.
    + intros name Hne. rewrite Hhas, (hasRole_found _ _ _ _ Hu).
      destruct (String.eqb_spec name roleName); done.
    + unfold RBACService.removeRole. rewrite bind_eval. unfold get. rewrite Hu'.
      rewrite bind_eval, Hfilter. cbn [roles with_roles].
      rewrite filter_twice, Hagain. done.
  - unfold RBACService.removeRole. rewrite bind_eval. unfold get. by rewrite Hu.
Qed.

(** X7: [removeRoles] throws "User not found" and writes nothing when the
    principal is not found.  Otherwise it returns; afterwards the
    principal holds none of the listed names, every name outside the list
    is held as before, and with an empty list every role is kept. *)
Theorem removeRoles_spec (db : Db) (userId : string) (roleNames : list string) :
  match userRepo_findOne db userId with
  | None =>
      RBACService.removeRoles userId roleNames db
      = (Throw (Error "User not found"), db)
  | Some user =>
      ∃ db',
        RBACService.removeRoles userId roleNames db = (Ok tt, db')
        ∧ RBACService.hasAnyRole db' userId roleNames = Ok false
        ∧ (∀ name, name ∉ roleNames →
             RBACService.hasRole db' userId name = RBACService.hasRole db userId name)
        ∧ (roleNames = [] → userRepo_findOne db' userId = Some user)
  end.
Proof.
  destruct (userRepo_findOne db userId) as [user|] eqn:Hu.
  - destruct (remove_by db userId user
                (λ name, negb (includes roleNames name)) Hu)
      as (db' & Hsave & Hu' & _ & Hhas & _).
    assert (∀ held : list Role,
              filter (λ role, includes roleNames (role_name role) = false) held
              = filter (λ role, negb (includes roleNames (role_name role)) = true) held)
      as Hfilter.
    { intros held. apply list_filter_iff. intros r.
      by destruct (includes roleNames (role_name r)). }
    exists db'. split; [|split; [|split]].
    + unfold RBACService.removeRoles. rewrite bind_eval. unfold get. rewrite Hu.
      rewrite bind_eval, Hfilter, Hsave. done.
    + destruct (RBACService.hasAnyRole db' userId roleNames) as [[]|e] eqn:Hany.
      * apply hasAnyRole_true in Hany as (name & Hin & Hname).
        rewrite Hhas in Hname. apply includes_elem_of in Hin.
        rewrite Hin in Hname. done.
      * done.
      * unfold RBACService.hasAnyRole in Hany. rewrite Hu' in Hany. done.
    + intros name Hout. rewrite Hhas, (hasRole_found _ _ _ _ Hu).
      destruct (includes roleNames name) eqn:E; [|done].
      apply includes_elem_of in E. done.
    + intros ->. rewrite Hu'. f_equal.
      assert (∀ l : list Role,
                filter (λ role, negb (includes [] (role_name role)) = true) l = l)
        as Hall.
      { induction l as [|r l IH]; [done|]. rewrite filter_cons.
        destruct (decide (negb (includes [] (role_name r)) = true)) as [_|Hn].
        - by rewrite IH.
        - exfalso. apply Hn. reflexivity. }
      rewrite Hall. by destruct user.
  - unfold RBACService.removeRoles. rewrite bind_eval. unfold get. by rewrite Hu.
Qed.

(** ** Assigning roles and what the principal can do afterwards *)

Lemma canonical_same_id (db : Db) (r1 r2 : Role) :
  canonical db r1 → canonical db r2 → role_id r1 = role_id r2 → r1 = r2.
Proof. unfold canonical. intros H1 H2 E. rewrite E in H1. congruence. Qed.

(** After an [assignRole] that returned, over a role table with unique
    ids: the principal is found, holds the role, and holds what it held. *)
Lemma assignRole_after (db db1 : Db) (userId roleName : string) :
  NoDup (role_id <$> roleRepo db) →
  RBACService.assignRole userId roleName db = (Ok tt, db1) →
  ∃ user user1 role,
    userRepo_findOne db userId = Some user
    ∧ roleRepo_findOne db roleName = Some role
    ∧ userRepo_findOne db1 userId = Some user1
    ∧ role ∈ roles user1
    ∧ (∀ r, r ∈ roles user → r ∈ roles user1).
Proof.
  intros Hids. rewrite assignRole_eval.
  destruct (userRepo_findOne db userId) as [user|] eqn:Hu; [|done].
  destruct (roleRepo_findOne db roleName) as [role|] eqn:Hr; [|done].
  destruct (roleRepo_findOne_elem_of _ _ _ Hr) as [Hin Hname].
  pose proof (stored_canonical db role Hids Hin) as Hcan.
  pose proof (found_canonical db userId user Hu) as Hheldcan.
  destruct (existsb _ (roles user)) eqn:Hheld.
  - intros [= <-]. exists user, user, role.
    split; [done|]. split; [done|]. split; [done|]. split; [|done].
    apply existsb_elem_of in Hheld as (r & Hr' & E). apply String.eqb_eq in E.
    rewrite Forall_forall in Hheldcan.
    by rewrite <- (canonical_same_id db r role (Hheldcan r Hr') Hcan E).
  - destruct (save_reload db userId user (roles user ++ [role]) Hu)
      as (db' & Hsave & Hu' & _).
    { apply Forall_app. split; [done|]. by apply Forall_singleton. }
    intros [= <-]. exists user, (with_roles (roles user ++ [role]) user), role.
    split; [done|]. split; [done|]. split.
    + unfold userRepo_save in Hsave. injection Hsave as <-. exact Hu'.
    + cbn. split; [apply elem_of_app; right; apply list_elem_of_here|].
      intros r Hr'. apply elem_of_app. by left.
Qed.

(** X8: over a role table with unique ids, after an [assignRole] that
    returned the principal has the role ([hasRole] answers [true]), keeps
    every role and every permission it had, and passes [hasPermission]
    for whatever a permission of the assigned role grants. *)
Theorem assignRole_grants (db db1 : Db) (userId roleName : string) :
  NoDup (role_id <$> roleRepo db) →
  RBACService.assignRole userId roleName db = (Ok tt, db1) →
  RBACService.hasRole db1 userId roleName = Ok true
  ∧ (∀ name, RBACService.hasRole db userId name = Ok true →
             RBACService.hasRole db1 userId name = Ok true)
  ∧ (∀ res act, RBACService.hasPermission db userId res act = Ok true →
                RBACService.hasPermission db1 userId res act = Ok true)
  ∧ (∀ role p res act,
       roleRepo_findOne db roleName = Some role →
       p ∈ permissions role → grants p res act →
       RBACService.hasPermission db1 userId res act = Ok true).
Proof.
  intros Hids Hrun.
  destruct (assignRole_after db db1 userId roleName Hids Hrun)
    as (user & user1 & role & Hu & Hr & Hu1 & Hrole & Hkeep).
  destruct (roleRepo_findOne_elem_of _ _ _ Hr) as [_ Hname].
  split; [|split; [|split]].
  - apply hasRole_true. exists user1. split; [done|].
    apply list_elem_of_fmap. exists role. done.
  - intros name Hhas. apply hasRole_true in Hhas as (u & [= <-]%(eq_trans (eq_sym Hu)) & Hin).
    apply hasRole_true. exists user1. split; [done|].
    apply list_elem_of_fmap in Hin as (r & -> & Hr').
    apply list_elem_of_fmap. exists r. split; [done | by apply Hkeep].
  - intros res act Hhas.
    apply hasPermission_true in Hhas as (u & [= <-]%(eq_trans (eq_sym Hu)) & Hcheck).
    apply checkUserPermission_true in Hcheck as (r & Hr' & p & Hp & Hgrant).
    apply hasPermission_true. exists user1. split; [done|].
    apply checkUserPermission_true. exists r. split; [by apply Hkeep|]. eauto.
  - intros role' p res act [= <-]%(eq_trans (eq_sym Hr)) Hp Hgrant.
    apply hasPermission_true. exists user1. split; [done|].
    apply checkUserPermission_true. exists role. eauto.
Qed.

(** An instance: the member ["20"] cannot write transactions; once made
    an admin it can. *)
Lemma assignRole_grants_witness :
  ∃ db1,
    RBACService.hasPermission Sample.staffed "20" "transaction" "write" = Ok false
    ∧ RBACService.assignRole "20" "admin" Sample.staffed = (Ok tt, db1)
    ∧ RBACService.hasRole db1 "20" "admin" = Ok true
    ∧ RBACService.hasPermission db1 "20" "transaction" "write" = Ok true.
Proof.
  eexists. split; [vm_compute; reflexivity|].
  match goal with
  | |- ?assigned ∧ _ => assert assigned as Hrun by (vm_compute; reflexivity)
  end.
  split; [exact Hrun|].
  assert (NoDup (role_id <$> roleRepo Sample.staffed)) as Hids.
  { refine (bool_decide_unpack _ _). vm_compute. exact I. }
  destruct (assignRole_grants _ _ _ _ Hids Hrun) as (Hrole & _ & _ & Hgrant).
  split; [exact Hrole|].
  eapply (Hgrant _
            {| perm_id := "2"; perm_name := "transaction:write";
               resource := "transaction"; action := "write" |}).
  - vm_compute. reflexivity.
  - cbn. apply list_elem_of_further, list_elem_of_here.
  - left. done.
Defined.

(** ** Assigning several roles *)






(** ** Changing the permissions of a role *)

Lemma find_role_fmap (rid : string) (role' : Role) (table : list Role) :
  find (λ r, String.eqb (role_id r) rid)
       ((λ x, if String.eqb (role_id x) (role_id role') then role' else x) <$> table)
  = (λ x, if String.eqb (role_id x) (role_id role') then role' else x)
      <$> find (λ r, String.eqb (role_id r) rid) table.
Proof.
  induction table as [|x table IH]; [done|].
  rewrite fmap_cons. cbn [find].
  destruct (String.eqb_spec (role_id x) (role_id role')) as [E|Hne].
  - replace (String.eqb (role_id role') rid) with (String.eqb (role_id x) rid)
      by (by rewrite E).
    destruct (String.eqb (role_id x) rid) eqn:Hx; [|exact IH].
    cbn. by rewrite (proj2 (String.eqb_eq _ _) E).
  - destruct (String.eqb (role_id x) rid) eqn:Hx; [|exact IH].
    cbn. by rewrite (proj2 (String.eqb_neq _ _) Hne).
Qed.

Lemma loadRoles_updated (db : Db) (role' : Role) (row : UserRow) :
  loadRoles
    (set_roleRepo
       (fmap (λ x, if String.eqb (role_id x) (role_id role') then role' else x)) db)
    row
  = (λ x, if String.eqb (role_id x) (role_id role') then role' else x)
      <$> loadRoles db row.
Proof.
  unfold loadRoles. cbn [roleRepo set_roleRepo].
  induction (roles row) as [|rid ids IH]; [done|].
  cbn. rewrite find_role_fmap.
  destruct (find (λ r, String.eqb (role_id r) rid) (roleRepo db)); cbn.
  - f_equal. exact IH.
  - exact IH.
Qed.

Lemma find_name_fmap (name : string) (role role' : Role) (table : list Role) :
  role_name role' = name →
  role_id role' = role_id role →
  find (λ r, String.eqb (role_name r) name) table = Some role →
  find (λ r, String.eqb (role_name r) name)
       ((λ x, if String.eqb (role_id x) (role_id role') then role' else x) <$> table)
  = Some role'.
Proof.
  intros Hname Hid. induction table as [|x table IH]; [done|].
  rewrite fmap_cons. cbn [find].
  destruct (String.eqb_spec (role_id x) (role_id role')) as [E|Hne].
  - rewrite Hname, String.eqb_refl. done.
  - destruct (String.eqb (role_name x) name) eqn:Hx; [|exact IH].
    intros [= ->]. congruence.
Qed.

(** X10: [updateRolePermissions] throws "Role ... not found" when no role
    has the name and, for a non-empty list of distinct names over a
    permission table with unique names, "Some permissions not found" when
    a name is not stored; both leave the database as it was.  Otherwise
    the role keeps its id and name and gets exactly the found
    permissions, and from then on every principal is checked against the
    new permissions for that role and the unchanged ones of its other
    roles. *)
Theorem updateRolePermissions_spec (db : Db) (roleName : string)
    (permissionNames : list string) :
  permissionNames ≠ [] →
  NoDup permissionNames →
  NoDup (perm_name <$> permissionRepo db) →
  match roleRepo_findOne db roleName with
  | None =>
      RBACService.updateRolePermissions roleName permissionNames db
      = (Throw (Error ("Role '" +:+ roleName +:+ "' not found")), db)
  | Some role =>
      if decide (Forall (λ n, is_Some (permissionRepo_findOne db n)) permissionNames)
      then
        ∃ role' db',
          RBACService.updateRolePermissions roleName permissionNames db
          = (Ok role', db')
          ∧ role_id role' = role_id role ∧ role_name role' = roleName
          ∧ permissions role' = permissionRepo_find db permissionNames
          ∧ roleRepo_findOne db' roleName = Some role'
          ∧ userRepo db' = userRepo db
          ∧ ∀ userId res act,
              RBACService.hasPermission db' userId res act = Ok true
              ↔ ∃ user r p,
                  userRepo_findOne db userId = Some user ∧ r ∈ roles user
                  ∧ p ∈ (if String.eqb (role_id r) (role_id role)
                         then permissions role' else permissions r)
                  ∧ grants p res act
      else
        RBACService.updateRolePermissions roleName permissionNames db
        = (Throw (Error "Some permissions not found"), db)
  end.
Proof.
  intros _ Hnames Htable.
  unfold RBACService.updateRolePermissions. rewrite bind_eval. unfold get.
  destruct (roleRepo_findOne db roleName) as [role|] eqn:Hr; [|done].
  rewrite bind_eval.
  pose proof (permissionRepo_find_count db permissionNames Hnames Htable) as Hcount.
  destruct (roleRepo_findOne_elem_of _ _ _ Hr) as [Hin Hname].
  destruct (decide (Forall _ permissionNames)) as [Hall|Hmiss].
  2: { destruct (Nat.eqb_spec (length (permissionRepo_find db permissionNames))
                   (length permissionNames)) as [Hlen|_]; [|done].
       exfalso. apply Hmiss, Hcount, Hlen. }
  apply Hcount in Hall as Hlen. rewrite Hlen, Nat.eqb_refl. cbn [negb].
  set (role' := {| role_id := role_id role; role_name := role_name role;
                   permissions := permissionRepo_find db permissionNames |}).
  set (upd := λ x : Role, if String.eqb (role_id x) (role_id role') then role' else x).
  exists role', (set_roleRepo (fmap upd) db).
  split; [done|]. split; [done|]. split; [done|]. split; [done|].
  split; [|split; [done|]].
  { unfold roleRepo_findOne in *. cbn [roleRepo set_roleRepo].
    by apply (find_name_fmap roleName role role'). }
  assert (∀ userId, userRepo_findOne (set_roleRepo (fmap upd) db) userId
                    = (λ u, with_roles (upd <$> roles u) u)
                        <$> userRepo_findOne db userId) as Hload.
  { intros userId. unfold userRepo_findOne. cbn [userRepo set_roleRepo].
    destruct (userRepo db !! userId) as [row|]; [|done]. cbn.
    destruct (live row && String.eqb (id row) userId); [|done]. cbn. f_equal.
    unfold loadUser. cbn [roles with_roles].
    subst upd. cbv beta. rewrite (loadRoles_updated db role' row). reflexivity. }
  intros userId res act. rewrite hasPermission_true, Hload. split.
  - intros (u1 & Hu1 & Hcheck).
    destruct (userRepo_findOne db userId) as [user|]; [|done].
    injection Hu1 as <-.
    apply checkUserPermission_true in Hcheck as (r1 & Hr1 & p & Hp & Hgrant).
    cbn in Hr1. apply list_elem_of_fmap in Hr1 as (r & -> & Hrin).
    exists user, r, p. split; [done|]. split; [done|]. split; [|done].
    unfold upd in Hp. cbn [role_id role'] in Hp.
    by destruct (String.eqb (role_id r) (role_id role)).
  - intros (user & r & p & -> & Hrin & Hp & Hgrant).
    eexists. split; [reflexivity|].
    apply checkUserPermission_true. exists (upd r).
    split; [cbn; by apply list_elem_of_fmap_2|].
    exists p. split; [|done].
    unfold upd. cbn [role_id role'].
    by destruct (String.eqb (role_id r) (role_id role)).
Qed.

(** An instance: the member role is cut down to writing transactions; the
    member ["20"] can then write and can no longer read. *)
Lemma updateRolePermissions_spec_witness :
  ∃ role' db',
    RBACService.updateRolePermissions "member" ["transaction:write"] Sample.staffed
    = (Ok role', db')
    ∧ RBACService.hasPermission db' "20" "transaction" "write" = Ok true
    ∧ RBACService.hasPermission db' "20" "transaction" "read" = Ok false
    ∧ RBACService.updateRolePermissions "owner" ["transaction:write"] Sample.staffed
      = (Throw (Error "Role 'owner' not found"), Sample.staffed).
Proof.
  eexists _, _. split; [vm_compute; reflexivity|].
  split; [vm_compute; reflexivity|]. split; [vm_compute; reflexivity|].
  assert (NoDup ["transaction:write"]) as Hnames.
  { refine (bool_decide_unpack _ _). vm_compute. exact I. }
  assert (NoDup (perm_name <$> permissionRepo Sample.staffed)) as Htable.
  { refine (bool_decide_unpack _ _). vm_compute. exact I. }
  pose proof (updateRolePermissions_spec Sample.staffed "owner" ["transaction:write"])
    as Hspec.
  replace (roleRepo_findOne Sample.staffed "owner") with (@None Role) in Hspec
    by (vm_compute; reflexivity).
  apply Hspec; [discriminate | exact Hnames | exact Htable].
Defined.

(** ** Creating, then looking up *)

Lemma find_app_None {A} (f : A → bool) (l k : list A) :
  find f l = None → find f (l ++ k) = find f k.
Proof.
  induction l as [|x l IH]; [done|]. simpl.
  destruct (f x); [done | exact IH].
Qed.

(** X11: a permission that [createPermission] returned is the one found
    under its name, and a role that [createRole] returned is the one found
    under its name; a second creation under the same name then throws
    "... already exists" and writes nothing. *)
Theorem create_then_find (db : Db) :
  (∀ res act p db',
     RBACService.createPermission res act db = (Ok p, db') →
     permissionRepo_findOne db' (res +:+ ":" +:+ act) = Some p
     ∧ RBACService.createPermission res act db'
       = (Throw (Error ("Permission '" +:+ (res +:+ ":" +:+ act)
                          +:+ "' already exists")), db'))
  ∧ (∀ roleName permissionNames role db',
       RBACService.createRole roleName permissionNames db = (Ok role, db') →
       roleRepo_findOne db' roleName = Some role
       ∧ ∀ otherNames,
           RBACService.createRole roleName otherNames db'
           = (Throw (Error ("Role '" +:+ roleName +:+ "' already exists")), db')).
Proof.
  split.
  - intros res act p db'. rewrite createPermission_eval.
    destruct (permissionRepo_findOne db (res +:+ ":" +:+ act)) eqn:Hnone; [done|].
    intros [= <- <-].
    assert (permissionRepo_findOne
              (permissionRepo_save_new (res +:+ ":" +:+ act) res act db).2
              (res +:+ ":" +:+ act)
            = Some {| perm_id := pretty (nextId db);
                      perm_name := res +:+ ":" +:+ act;
                      resource := res; action := act |}) as Hfound.
    { unfold permissionRepo_findOne in *. cbn.
      rewrite (find_app_None _ _ _ Hnone). cbn. by rewrite String.eqb_refl. }
    split; [exact Hfound|].
    rewrite createPermission_eval. cbn in Hfound. cbn. by rewrite Hfound.
  - intros roleName permissionNames role db'. rewrite createRole_eval.
    destruct (roleRepo_findOne db roleName) eqn:Hnone; [done|].
    destruct (length _ =? length _)%nat; [|done].
    intros [= <- <-].
    assert (roleRepo_findOne
              (roleRepo_save_new roleName
                 (permissionRepo_find db permissionNames) db).2 roleName
            = Some {| role_id := pretty (nextId db); role_name := roleName;
                      permissions := permissionRepo_find db permissionNames |})
      as Hfound.
    { unfold roleRepo_findOne in *. cbn.
      rewrite (find_app_None _ _ _ Hnone). cbn. by rewrite String.eqb_refl. }
    split; [exact Hfound|].
    intros otherNames. rewrite createRole_eval. cbn in Hfound. cbn.
    by rewrite Hfound.
Qed.

(** ** Decisions of the middleware *)

(** X12: [authorize] calls [next] exactly for an authenticated request
    whose user passes [hasPermission] for one of the actions; it answers
    401 exactly when the request has no user, never 500, and with an
    empty list of actions it lets nobody through. *)
Theorem authorize_spec (res : string) (actions : list string)
    (req : Middleware.Request) (db : Db) :
  (Middleware.authorize res actions req db = Middleware.next
   ↔ ∃ uid act, Middleware.req_user req = Some uid ∧ act ∈ actions
                ∧ RBACService.hasPermission db uid res act = Ok true)
  ∧ (Middleware.authorize res actions req db
     = Middleware.json 401 "Authentication required"
     ↔ Middleware.req_user req = None)
  ∧ (∀ msg, Middleware.authorize res actions req db ≠ Middleware.json 500 msg)
  ∧ Middleware.authorize res [] req db ≠ Middleware.next.
Proof.
  unfold Middleware.authorize.
  destruct (Middleware.req_user req) as [uid|].
  - pose proof (hasAnyPermission_true db uid res actions) as Hany.
    assert (RBACService.hasAnyPermission db uid res [] ≠ Ok true) as Hnil.
    { intros H. apply hasAnyPermission_true in H as (act & Hact & _).
      by apply elem_of_nil in Hact. }
    assert (∀ l, throws (RBACService.hasAnyPermission db uid res l) = false) as Hok.
    { intros l. unfold RBACService.hasAnyPermission.
      by destruct (userRepo_findOne db uid). }
    split; [|split; [|split]].
    + destruct (RBACService.hasAnyPermission db uid res actions) as [[]|e] eqn:E.
      * split; [intros _ | done].
        destruct (proj1 Hany eq_refl) as (act & Hin & Hact). eauto.
      * split; [done|]. intros (u & act & [= <-] & Hin & Hact).
        assert (Ok false = Ok true) as Habs by (apply Hany; eauto). done.
      * pose proof (Hok actions) as H. rewrite E in H. done.
    + destruct (RBACService.hasAnyPermission db uid res actions) as [[]|e]; done.
    + intros msg. pose proof (Hok actions) as H.
      destruct (RBACService.hasAnyPermission db uid res actions) as [[]|e]; done.
    + pose proof (Hok []) as H.
      destruct (RBACService.hasAnyPermission db uid res []) as [[]|e]; done.
  - split; [|split; [|split]]; try done.
    split; [done|]. intros (u & act & ? & _). done.
Qed.

(** X13: [requireMinimumRole] answers 500 exactly when the user of the
    request is found and the required role is not in the hierarchy; for a
    user that is not found it answers 403, whatever the role name; and it
    calls [next] exactly when [hasMinimumRole] answers [true]. *)
Theorem requireMinimumRole_spec (minimumRole : string)
    (req : Middleware.Request) (db : Db) :
  (Middleware.requireMinimumRole minimumRole req db
   = Middleware.json 500 "Authorization error"
   ↔ ∃ uid, Middleware.req_user req = Some uid
            ∧ is_Some (userRepo_findOne db uid)
            ∧ minimumRole ∉ ROLE_HIERARCHY)
  ∧ (Middleware.requireMinimumRole minimumRole req db = Middleware.next
     ↔ ∃ uid, Middleware.req_user req = Some uid
              ∧ RBACService.hasMinimumRole db uid minimumRole = Ok true)
  ∧ (∀ uid, Middleware.req_user req = Some uid →
            userRepo_findOne db uid = None →
            Middleware.requireMinimumRole minimumRole req db
            = Middleware.json 403
                ("Access denied. Minimum required role: " +:+ minimumRole)).
Proof.
  unfold Middleware.requireMinimumRole.
  destruct (Middleware.req_user req) as [uid|].
  2: { split; [|split]; try done.
       - split; [done | intros (u & ? & _); done].
       - split; [done | intros (u & ? & _); done]. }
  destruct (userRepo_findOne db uid) as [user|] eqn:Hu.
  - destruct (decide (minimumRole ∈ ROLE_HIERARCHY)) as [Hin|Hout].
    + destruct (hasMinimumRole_known db uid minimumRole user Hu Hin) as (b & Hb & _).
      rewrite Hb.
      split; [|split; [|intros u [= <-] Hn; congruence]].
      * split; [by destruct b | intros (u & [= <-] & _ & Hn); done].
      * split; [destruct b; [eauto | done]|].
        intros (u & [= <-] & H). rewrite Hb in H. by injection H as ->.
    + rewrite (hasMinimumRole_unknown db uid minimumRole user Hu Hout).
      split; [|split; [|intros u [= <-] Hn; congruence]].
      * split; [intros _; exists uid; eauto | done].
      * split; [done|]. intros (u & [= <-] & H).
        rewrite (hasMinimumRole_unknown db uid minimumRole user Hu Hout) in H. done.
  - unfold RBACService.hasMinimumRole. rewrite Hu. cbn.
    split; [|split].
    + split; [done | intros (u & [= <-] & [x Hx] & _); congruence].
    + split; [done|]. intros (u & [= <-] & H). rewrite Hu in H. done.
    + intros u [= <-] _. done.
Qed.

(** X14: [requireRole] calls [next] exactly when [hasRole] answers [true]
    for the user of the request; [requireAllRoles] without any role name
    lets every user that is found through, and [requireAnyRole] without
    any role name lets nobody through. *)
Theorem role_middleware_spec (req : Middleware.Request) (db : Db) :
  (∀ roleName,
     Middleware.requireRole roleName req db = Middleware.next
     ↔ ∃ uid, Middleware.req_user req = Some uid
              ∧ RBACService.hasRole db uid roleName = Ok true)
  ∧ (Middleware.requireAllRoles [] req db = Middleware.next
     ↔ ∃ uid, Middleware.req_user req = Some uid ∧ is_Some (userRepo_findOne db uid))
  ∧ Middleware.requireAnyRole [] req db ≠ Middleware.next.
Proof.
  unfold Middleware.requireRole, Middleware.requireAllRoles, Middleware.requireAnyRole,
    RBACService.hasAnyRole, RBACService.hasAllRoles, RBACService.hasRole.
  destruct (Middleware.req_user req) as [uid|].
  2: { split; [|split]; try done.
       - intros roleName. split; [done | intros (u & ? & _); done].
       - split; [done | intros (u & ? & _); done]. }
  destruct (userRepo_findOne db uid) as [user|] eqn:Hu; cbn.
  - split; [|split; [|done]].
    + intros roleName. rewrite orb_false_r.
      assert (includes (role_name <$> roles user) roleName
              = existsb (λ role, String.eqb (role_name role) roleName) (roles user))
        as ->.
      { unfold includes. induction (roles user) as [|r l IH]; [done|].
        cbn. rewrite String.eqb_sym. f_equal. exact IH. }
      destruct (existsb _ (roles user)) eqn:E; cbn.
      * split; [intros _; exists uid | done]. by rewrite Hu, E.
      * split; [done|]. intros (u & [= <-] & H). rewrite Hu, E in H. done.
    + split; [intros _; exists uid; by rewrite Hu | done].
  - split; [|split; [|done]].
    + intros roleName. split; [done|].
      intros (u & [= <-] & H). rewrite Hu in H. done.
    + split; [done|]. intros (u & [= <-] & H). rewrite Hu in H. by destruct H.
Qed.

(** X15: [allowSuperAdmin] calls [next] for every request whose user holds
    the role "super_admin", whatever the wrapped middleware would answer;
    for any other authenticated request it answers as the wrapped
    middleware does; without a user it answers 401. *)
Theorem allowSuperAdmin_spec
    (middleware : Middleware.Request → Db → Middleware.Response)
    (req : Middleware.Request) (db : Db) :
  match Middleware.req_user req with
  | None =>
      Middleware.allowSuperAdmin middleware req db
      = Middleware.json 401 "Authentication required"
  | Some uid =>
      (RBACService.hasRole db uid "super_admin" = Ok true →
       Middleware.allowSuperAdmin middleware req db = Middleware.next)
      ∧ (RBACService.hasRole db uid "super_admin" ≠ Ok true →
         Middleware.allowSuperAdmin middleware req db = middleware req db)
  end.
Proof.
  unfold Middleware.allowSuperAdmin.
  destruct (Middleware.req_user req) as [uid|]; [|done].
  unfold RBACService.hasRole.
  destruct (userRepo_findOne db uid) as [user|]; [|done].
  destruct (existsb _ (roles user)); done.
Qed.

(** X16: when the route carries a non-empty [companyId],
    [requireCompanyOwnership] decides on it alone: the body and the query
    string are not looked at, and the request passes exactly when it is
    the company of the user. *)
Theorem requireCompanyOwnership_params (req : Middleware.CompanyRequest)
    (userCompany routeCompany : string) :
  Middleware.cr_user_companyId req = Some userCompany →
  Middleware.cr_params_companyId req = Some routeCompany →
  routeCompany ≠ EmptyString →
  Middleware.requireCompanyOwnership req
  = if String.eqb userCompany routeCompany then Middleware.next
    else Middleware.json 403
           "Access denied. You can only access your own company data.".
Proof.
  intros Hu Hp Hne. unfold Middleware.requireCompanyOwnership, Middleware.or_string.
  rewrite Hu, Hp. cbn.
  destruct (String.eqb_spec routeCompany EmptyString) as [|_]; [done|]. cbn.
  destruct (String.eqb_spec routeCompany EmptyString) as [|_]; [done|]. cbn.
  destruct (String.eqb_spec routeCompany EmptyString) as [|_]; [done|]. cbn.
  by destruct (String.eqb userCompany routeCompany).
Qed.

(** An instance: the body names the company of the user, the route names
    another one; the request is refused. *)
Lemma requireCompanyOwnership_params_witness :
  Middleware.requireCompanyOwnership
    {| Middleware.cr_user_companyId := Some "c1";
       Middleware.cr_params_companyId := Some "c2";
       Middleware.cr_body_companyId := Some "c1";
       Middleware.cr_query_companyId := None |}
  = Middleware.json 403 "Access denied. You can only access your own company data.".
Proof.
  apply (requireCompanyOwnership_params
           {| Middleware.cr_user_companyId := Some "c1";
              Middleware.cr_params_companyId := Some "c2";
              Middleware.cr_body_companyId := Some "c1";
              Middleware.cr_query_companyId := None |} "c1" "c2");
    [reflexivity | reflexivity | discriminate].
Defined.

(** ** The user list query *)

(** X17: every element of the [where] array that [buildQueryFilters]
    builds is restricted to the company, also when a search splits the
    condition in three; an explicit status is required of every element,
    and without one, unless inactive users are asked for, every element
    admits active and pending users only. *)
Theorem buildQueryFilters_where (params : UserQueryParams) (company : string) :
  let w := fo_where (UserService.buildQueryFilters params company) in
  Forall (λ c, w_companyId c = company) w
  ∧ length w = (if truthy_string (q_search params) then 3 else 1)
  ∧ (∀ s, q_status params = Some s → Forall (λ c, w_status c = Some (StatusIs s)) w)
  ∧ (q_status params = None →
     default false (q_includeInactive params) = false →
     Forall (λ c, w_status c = Some (StatusIn [ACTIVE; PENDING])) w)
  ∧ (q_status params = None →
     default false (q_includeInactive params) = true →
     Forall (λ c, w_status c = None) w).
Proof.
  unfold UserService.buildQueryFilters. cbn.
  destruct (truthy_string (q_search params)); cbn.
  - split; [repeat constructor|]. split; [done|].
    split; [intros s ->; repeat constructor|].
    split; intros -> ->; repeat constructor.
  - split; [repeat constructor|]. split; [done|].
    split; [intros s ->; repeat constructor|].
    split; intros -> ->; repeat constructor.
Qed.

(** X18: the window of a page.  [take] never exceeds 100.  For a page and
    a limit of at least 1, [skip] is (page - 1) * limit with the limit as
    requested, while [take] is the limit capped at 100: up to a limit of
    100 the next page starts where this one ends, and above it
    (limit - 100) rows between two pages are never returned. *)
Theorem page_window (p1 p2 : UserQueryParams) (company : string) (pg lim : Z) :
  q_page p1 = Some pg → q_page p2 = Some (pg + 1)%Z →
  q_limit p1 = Some lim → q_limit p2 = Some lim →
  (1 ≤ pg)%Z → (1 ≤ lim)%Z →
  let o1 := UserService.buildQueryFilters p1 company in
  let o2 := UserService.buildQueryFilters p2 company in
  fo_skip o1 = ((pg - 1) * lim)%Z
  ∧ fo_take o1 = Z.min lim 100
  ∧ (fo_take o1 ≤ 100)%Z
  ∧ (fo_skip o2 - (fo_skip o1 + fo_take o1) = Z.max 0 (lim - 100))%Z.
Proof.
  intros Hp1 Hp2 Hl1 Hl2 Hpg Hlim. unfold UserService.buildQueryFilters. cbn.
  rewrite Hp1, Hp2, Hl1, Hl2. unfold or_default, PAGINATION.defaultPage,
    PAGINATION.defaultLimit, PAGINATION.maxLimit.
  destruct (Z.eqb_spec pg 0); [lia|]. destruct (Z.eqb_spec lim 0); [lia|].
  destruct (Z.eqb_spec (pg + 1) 0); [lia|]. lia.
Qed.

(** An instance: with a limit of 250, page 1 returns rows 0 to 99 and
    page 2 starts at row 250. *)
Lemma page_window_witness :
  fo_skip (UserService.buildQueryFilters (Sample.paged 1 250) "c1") = 0%Z
  ∧ fo_take (UserService.buildQueryFilters (Sample.paged 1 250) "c1") = 100%Z
  ∧ fo_skip (UserService.buildQueryFilters (Sample.paged 2 250) "c1") = 250%Z.
Proof.
  destruct (page_window (Sample.paged 1 250) (Sample.paged 2 250) "c1" 1 250)
    as (Hskip & Htake & _ & Hgap);
    [reflexivity | reflexivity | reflexivity | reflexivity | lia | lia |].
  split; [exact Hskip|]. split; [exact Htake|]. reflexivity.
Defined.

Lemma ceil_div_bounds (a b : Z) :
  (0 < b)%Z → (ceil_div a b * b - b < a ≤ ceil_div a b * b)%Z.
Proof.
  intros Hb. unfold ceil_div.
  pose proof (Z.div_mod (- a) b ltac:(lia)) as Hdm.
  pose proof (Z.mod_pos_bound (- a) b Hb) as Hmod. nia.
Qed.

(** X19: the page that [getUsers] computes on a cache miss carries the
    rows and the count of the query; with a page and a limit of at least
    1 and a count that is not negative, [totalPages] is the least number
    of pages of that limit that hold the count, [hasNext] says that the
    page is before the last one and [hasPrev] that it is after the
    first. *)
Theorem getUsers_pagination
    (findAndCount : FindManyOptions → Db → list User * Z)
    (params : UserQueryParams) (company : string) (db db' : Db)
    (r : PaginatedResponse User) :
  CacheService.lookup (UserService.listCacheKey params company) db = None →
  UserService.getUsers findAndCount params company db = (Ok r, db') →
  let found := findAndCount (UserService.buildQueryFilters params company) db in
  let pg := pagination r in
  data r = found.1 ∧ total pg = found.2
  ∧ page pg = or_default (q_page params) 1
  ∧ limit pg = Z.min (or_default (q_limit params) 20) 100
  ∧ ((1 ≤ page pg)%Z → (1 ≤ limit pg)%Z → (0 ≤ total pg)%Z →
     (totalPages pg * limit pg - limit pg < total pg ≤ totalPages pg * limit pg)%Z
     ∧ (hasNext pg = true ↔ (page pg < totalPages pg)%Z)
     ∧ (hasPrev pg = true ↔ (1 < page pg)%Z)).
Proof.
  intros Hmiss. unfold UserService.getUsers, CacheService.withCache. cbn.
  rewrite Hmiss. cbn.
  destruct (findAndCount (UserService.buildQueryFilters params company) db)
    as [users count] eqn:Hq.
  intros [= <- _]. cbn.
  split; [done|]. split; [done|]. split; [done|]. split; [done|].
  intros Hpage Hlimit Hcount.
  set (l := Z.min (or_default (q_limit params) PAGINATION.defaultLimit)
                  PAGINATION.maxLimit) in *.
  set (pgn := or_default (q_page params) PAGINATION.defaultPage) in *.
  pose proof (ceil_div_bounds count l ltac:(lia)) as Hceil.
  split; [exact Hceil|]. split.
  - rewrite Z.ltb_lt. split; intros H; nia.
  - rewrite Z.gtb_ltb, Z.ltb_lt. done.
Qed.

(** An instance: the three users of the sample store, two to a page. *)
Lemma getUsers_pagination_witness :
  ∃ r db',
    UserService.getUsers Sample.findAndCount (Sample.paged 1 2) "c1" Sample.staffed
    = (Ok r, db')
    ∧ total (pagination r) = 3%Z ∧ totalPages (pagination r) = 2%Z
    ∧ (hasNext (pagination r) = true ↔ (page (pagination r) < totalPages (pagination r))%Z).
Proof.
  eexists _, _.
  match goal with
  | |- ?ran ∧ _ => assert ran as Hrun by (vm_compute; reflexivity)
  end.
  split; [exact Hrun|]. split; [reflexivity|]. split; [reflexivity|].
  eapply (getUsers_pagination Sample.findAndCount _ "c1" Sample.staffed);
    [vm_compute; reflexivity | exact Hrun | cbn; lia | cbn; lia | cbn; lia].
Defined.

(** ** The cached detail of a user *)

Lemma getUserById_compute_pure (userId company : string) (db0 db0' : Db) (x : User) :
  (user ← get (λ db, userRepo_findOne_in db userId company);
   match user with
   | None => throw (NotFoundError "User not found")
   | Some user => mret user
   end) db0 = (Ok x, db0') → db0' = db0.
Proof.
  rewrite bind_eval. unfold get.
  destruct (userRepo_findOne_in db0 userId company); [|done].
  by intros [= _ <-].
Qed.

(** X20: the detail key does not name the company.  Once [getUserById]
    has returned a user for one company, the same call for any other
    company returns that user too, from the cache. *)
Theorem getUserById_any_company (userId c1 : string) (db db1 : Db) (u : User) :
  UserService.getUserById userId c1 db = (Ok u, db1) →
  ∀ c2, UserService.getUserById userId c2 db1 = (Ok u, db1).
Proof.
  intros Hfirst c2. unfold UserService.getUserById in *.
  eapply (withCache_again (T := User)); [| |exact Hfirst].
  - unfold CACHE_CONFIG.detail. lia.
  - intros db0 x db0'. apply getUserById_compute_pure.
Qed.

(** An instance: user ["20"] of company "c1" is read for "c1", then the
    call for "c2" answers with it, while a direct lookup for "c2" finds
    nobody. *)
Lemma getUserById_any_company_witness :
  ∃ u db1,
    UserService.getUserById "20" "c1" Sample.staffed = (Ok u, db1)
    ∧ companyId u = "c1"
    ∧ userRepo_findOne_in db1 "20" "c2" = None
    ∧ UserService.getUserById "20" "c2" db1 = (Ok u, db1).
Proof.
  eexists _, _.
  match goal with
  | |- ?ran ∧ _ => assert ran as Hrun by (vm_compute; reflexivity)
  end.
  split; [exact Hrun|]. split; [reflexivity|]. split; [vm_compute; reflexivity|].
  exact (getUserById_any_company _ _ _ _ _ Hrun "c2").
Defined.

(** X21: on a cache miss [getUserById] looks the user up by id and
    company: when there is none it throws [NotFoundError] and stores
    nothing; otherwise it returns the user and stores it under the detail
    key, leaving the tables as they were. *)
Theorem getUserById_miss (userId company : string) (db : Db) :
  CacheService.lookup ("user:detail:" +:+ userId) db = None →
  match userRepo_findOne_in db userId company with
  | None =>
      UserService.getUserById userId company db
      = (Throw (NotFoundError "User not found"), db)
  | Some u =>
      ∃ db',
        UserService.getUserById userId company db = (Ok u, db')
        ∧ CacheService.lookup ("user:detail:" +:+ userId) db' = Some (CachedUser u)
        ∧ userRepo db' = userRepo db ∧ roleRepo db' = roleRepo db
  end.
Proof.
  intros Hmiss. unfold UserService.getUserById, CacheService.withCache. cbn.
  rewrite Hmiss. cbn. rewrite bind_eval. unfold get.
  destruct (userRepo_findOne_in db userId company) as [u|]; [|done].
  eexists. split; [reflexivity|]. split; [|done].
  unfold CacheService.lookup. cbn. rewrite lookup_insert_eq. cbn.
  unfold CACHE_CONFIG.detail.
  destruct (Z.ltb_spec (now db) (now db + 10 * 60 * 1000)); [done | lia].
Qed.

(** An instance: in the sample store, whose cache is empty, user ["20"]
    is found for its own company and not for another one. *)
Lemma getUserById_miss_witness :
  UserService.getUserById "20" "c2" Sample.staffed
  = (Throw (NotFoundError "User not found"), Sample.staffed).
Proof.
  pose proof (getUserById_miss "20" "c2" Sample.staffed) as Hspec.
  replace (userRepo_findOne_in Sample.staffed "20" "c2") with (@None User) in Hspec
    by (vm_compute; reflexivity).
  apply Hspec. vm_compute. reflexivity.
Defined.

(** ** Deleting and creating users *)

Lemma findOne_deleted (db : Db) (userId : string) (row : UserRow) :
  userRepo db !! userId = Some row → deletedAt row ≠ None →
  userRepo_findOne db userId = None.
Proof.
  intros Hrow Hdel. unfold userRepo_findOne, live. rewrite Hrow. cbn.
  by destruct (deletedAt row).
Qed.

(** X22: [deleteUser] throws [NotFoundError] and writes nothing when no
    live user has the id in that company.  Otherwise the row stays in the
    table, stamped with the time of the call and otherwise unchanged, and
    no other row is touched; from then on the user passes no permission
    and no role check, and a second [deleteUser] throws
    [NotFoundError]. *)
Theorem deleteUser_spec (userId company : string) (db : Db) :
  match userRepo_findOne_in db userId company with
  | None =>
      UserService.deleteUser userId company db
      = (Throw (NotFoundError "User not found"), db)
  | Some _ =>
      ∃ db' row,
        UserService.deleteUser userId company db
        = (Ok "User deleted successfully", db')
        ∧ userRepo db !! userId = Some row
        ∧ userRepo db' !! userId = Some (with_deletedAt (Some (now db)) row)
        ∧ (∀ k, k ≠ userId → userRepo db' !! k = userRepo db !! k)
        ∧ (∀ res act, RBACService.hasPermission db' userId res act = Ok false)
        ∧ (∀ name, RBACService.hasRole db' userId name = Ok false)
        ∧ UserService.deleteUser userId company db'
          = (Throw (NotFoundError "User not found"), db')
  end.
Proof.
  rewrite deleteUser_eval.
  destruct (userRepo_findOne_in db userId company) as [user|] eqn:Hu; [|done].
  unfold userRepo_findOne_in in Hu.
  destruct (userRepo_findOne db userId) as [user'|] eqn:Hu'; [|done].
  cbn in Hu. destruct (String.eqb (companyId user') company); [|done].
  injection Hu as ->.
  destruct (userRepo_findOne_Some _ _ _ Hu') as (row & Hrow & -> & Hid & _).
  eexists _, row. split; [reflexivity|]. split; [done|].
  cbn [id loadUser with_roles]. rewrite Hid.
  assert (userRepo (set_userRepo (alter (with_deletedAt (Some (now db))) userId) db)
          !! userId = Some (with_deletedAt (Some (now db)) row)) as Hrow'.
  { cbn. by rewrite lookup_alter_eq, Hrow. }
  assert (userRepo_findOne
            (set_userRepo (alter (with_deletedAt (Some (now db))) userId) db) userId
          = None) as Hgone.
  { by apply (findOne_deleted _ _ _ Hrow'). }
  split; [exact Hrow'|]. split; [|split; [|split]].
  - intros k Hk. cbn. by rewrite lookup_alter_ne.
  - intros res act. unfold RBACService.hasPermission. by rewrite Hgone.
  - intros name. unfold RBACService.hasRole. by rewrite Hgone.
  - rewrite deleteUser_eval. unfold userRepo_findOne_in. by rewrite Hgone.
Qed.





(** ** Scheduling the analytics refresh *)

(** X24: [scheduleAnalyticsRefresh] appends exactly three jobs to the
    queue, one for each analytics type, all for the given company and the
    user "system"; none of them is visible before 2000 ms have passed and
    all of them are from then on. *)
Theorem scheduleAnalyticsRefresh_spec (company : string) (db : Db) :
  ∃ jobs db',
    QueueService.scheduleAnalyticsRefresh company db = (Ok jobs, db')
    ∧ analyticsQueue db' = analyticsQueue db ++ jobs
    ∧ length jobs = 3
    ∧ (∀ type : AnalyticsType,
         ∃ j, j ∈ jobs
              ∧ job_data j = {| job_companyId := company; job_type := type;
                                job_userId := "system" |})
    ∧ (∀ t, Forall (λ j, Queue.eligible t j = true ↔ (now db + 2000 ≤ t)%Z) jobs)
    ∧ userRepo db' = userRepo db ∧ cache db' = cache db.
Proof.
  eexists _, _. split; [reflexivity|]. cbn.
  split; [by rewrite <- !app_assoc|]. split; [done|]. split; [|split; [|done]].
  - intros [].
    + eexists. split; [apply list_elem_of_further, list_elem_of_here | reflexivity].
    + eexists. split; [do 2 apply list_elem_of_further; apply list_elem_of_here
                      | reflexivity].
    + eexists. split; [apply list_elem_of_here | reflexivity].
  - intros t. repeat constructor; unfold Queue.eligible; cbn; apply Z.leb_le.
Qed.

(** ** Seeding *)

Lemma grows_refl (db : Db) : grows db db.
Proof.
  split; [done|]. split; [done|].
  split; exists []; by rewrite app_nil_r.
Qed.

Lemma grows_trans (db1 db2 db3 : Db) : grows db1 db2 → grows db2 db3 → grows db1 db3.
Proof.
  intros (Hu1 & Hc1 & [r1 Hr1] & [p1 Hp1]) (Hu2 & Hc2 & [r2 Hr2] & [p2 Hp2]).
  split; [congruence|]. split; [congruence|]. split.
  - exists (r1 ++ r2). by rewrite Hr2, Hr1, app_assoc.
  - exists (p1 ++ p2). by rewrite Hp2, Hp1, app_assoc.
Qed.

Lemma find_app_Some {A} (f : A → bool) (l k : list A) (x : A) :
  find f l = Some x → find f (l ++ k) = Some x.
Proof.
  induction l as [|y l IH]; [done|]. simpl.
  destruct (f y); [done | exact IH].
Qed.

Lemma grows_permission (db db' : Db) (name : string) :
  grows db db' → is_Some (permissionRepo_findOne db name) →
  permissionRepo_findOne db' name = permissionRepo_findOne db name.
Proof.
  intros (_ & _ & _ & [e He]) [p Hp]. unfold permissionRepo_findOne in *.
  rewrite He, Hp. by apply find_app_Some.
Qed.

Lemma grows_role (db db' : Db) (name : string) :
  grows db db' → is_Some (roleRepo_findOne db name) →
  roleRepo_findOne db' name = roleRepo_findOne db name.
Proof.
  intros (_ & _ & [e He] & _) [r Hr]. unfold roleRepo_findOne in *.
  rewrite He, Hr. by apply find_app_Some.
Qed.

Lemma seedPermission_step (pd : PermissionData) (db : Db) :
  ∃ db1,
    RBACService.seedPermission pd db = (Ok tt, db1) ∧ grows db db1
    ∧ roleRepo db1 = roleRepo db
    ∧ is_Some (permissionRepo_findOne db1 (pd_name pd))
    ∧ (is_Some (permissionRepo_findOne db (pd_name pd)) → db1 = db).
Proof.
  unfold RBACService.seedPermission. rewrite bind_eval. unfold get.
  destruct (permissionRepo_findOne db (pd_name pd)) as [p|] eqn:Hp.
  - exists db. split; [done|]. split; [apply grows_refl|]. split; [done|].
    rewrite Hp. eauto.
  - eexists. split; [reflexivity|]. cbn. split; [|split; [done|split]].
    + split; [done|]. split; [done|]. split; [exists []; by rewrite app_nil_r|].
      eexists. reflexivity.
    + unfold permissionRepo_findOne in *. cbn.
      rewrite (find_app_None _ _ _ Hp). cbn. rewrite String.eqb_refl. eauto.
    + intros [? ?]. done.
Qed.

Lemma seedRole_step (rd : RoleData) (db : Db) :
  ∃ db1,
    RBACService.seedRole rd db = (Ok tt, db1) ∧ grows db db1
    ∧ permissionRepo db1 = permissionRepo db
    ∧ is_Some (roleRepo_findOne db1 (rd_name rd))
    ∧ (is_Some (roleRepo_findOne db (rd_name rd)) → db1 = db).
Proof.
  unfold RBACService.seedRole. rewrite bind_eval. unfold get.
  destruct (roleRepo_findOne db (rd_name rd)) as [r|] eqn:Hr.
  - exists db. split; [done|]. split; [apply grows_refl|]. split; [done|].
    rewrite Hr. eauto.
  - eexists. split; [reflexivity|]. cbn. split; [|split; [done|split]].
    + split; [done|]. split; [done|]. split; [eexists; reflexivity|].
      exists []. by rewrite app_nil_r.
    + unfold roleRepo_findOne in *. cbn.
      rewrite (find_app_None _ _ _ Hr). cbn. rewrite String.eqb_refl. eauto.
    + intros [? ?]. done.
Qed.

Lemma seedPermissions_loop (table : list PermissionData) (db : Db) :
  ∃ db2,
    for_of table RBACService.seedPermission db = (Ok tt, db2) ∧ grows db db2
    ∧ roleRepo db2 = roleRepo db
    ∧ (∀ pd, pd ∈ table → is_Some (permissionRepo_findOne db2 (pd_name pd)))
    ∧ ((∀ pd, pd ∈ table → is_Some (permissionRepo_findOne db (pd_name pd))) → db2 = db).
Proof.
  revert db. induction table as [|pd table IH]; intros db; simpl.
  - exists db. split; [done|]. split; [apply grows_refl|]. split; [done|].
    split; [|done]. intros ? H. by apply elem_of_nil in H.
  - rewrite bind_eval.
    destruct (seedPermission_step pd db) as (db1 & -> & Hg1 & Hr1 & Hin1 & Hsame1).
    destruct (IH db1) as (db2 & -> & Hg & Hr & Hin & Hsame).
    exists db2. split; [done|]. split; [by eapply grows_trans|].
    split; [congruence|]. split.
    + intros x Hx. apply elem_of_cons in Hx as [->|Hx]; [|by apply Hin].
      by rewrite (grows_permission db1 db2 _ Hg Hin1).
    + intros Hall.
      assert (db1 = db) as -> by (apply Hsame1, Hall, list_elem_of_here).
      apply Hsame. intros x Hx. by apply Hall, list_elem_of_further.
Qed.

Lemma seedRoles_loop (table : list RoleData) (db : Db) :
  ∃ db2,
    for_of table RBACService.seedRole db = (Ok tt, db2) ∧ grows db db2
    ∧ permissionRepo db2 = permissionRepo db
    ∧ (∀ rd, rd ∈ table → is_Some (roleRepo_findOne db2 (rd_name rd)))
    ∧ ((∀ rd, rd ∈ table → is_Some (roleRepo_findOne db (rd_name rd))) → db2 = db).
Proof.
  revert db. induction table as [|rd table IH]; intros db; simpl.
  - exists db. split; [done|]. split; [apply grows_refl|]. split; [done|].
    split; [|done]. intros ? H. by apply elem_of_nil in H.
  - rewrite bind_eval.
    destruct (seedRole_step rd db) as (db1 & -> & Hg1 & Hp1 & Hin1 & Hsame1).
    destruct (IH db1) as (db2 & -> & Hg & Hp & Hin & Hsame).
    exists db2. split; [done|]. split; [by eapply grows_trans|].
    split; [congruence|]. split.
    + intros x Hx. apply elem_of_cons in Hx as [->|Hx]; [|by apply Hin].
      by rewrite (grows_role db1 db2 _ Hg Hin1).
    + intros Hall.
      assert (db1 = db) as -> by (apply Hsame1, Hall, list_elem_of_here).
      apply Hsame. intros x Hx. by apply Hall, list_elem_of_further.
Qed.

(** X25: [seedRolesAndPermissions] always returns; it only appends to the
    role and permission tables, leaving every stored row, the users and
    the cache as they were; afterwards every built-in permission and role
    name is stored, and a second run changes nothing. *)
Theorem seedRolesAndPermissions_idempotent (db : Db) :
  ∃ db2,
    RBACService.seedRolesAndPermissions db = (Ok tt, db2)
    ∧ grows db db2
    ∧ (∀ pd, pd ∈ APP_PERMISSIONS → is_Some (permissionRepo_findOne db2 (pd_name pd)))
    ∧ (∀ rd, rd ∈ APP_ROLES → is_Some (roleRepo_findOne db2 (rd_name rd)))
    ∧ RBACService.seedRolesAndPermissions db2 = (Ok tt, db2).
Proof.
  unfold RBACService.seedRolesAndPermissions. rewrite bind_eval.
  destruct (seedPermissions_loop APP_PERMISSIONS db) as (db1 & -> & Hg1 & _ & Hperms & _).
  destruct (seedRoles_loop APP_ROLES db1) as (db2 & Hrun & Hg & Hp & Hroles & _).
  exists db2. split; [done|]. split; [by eapply grows_trans|].
  assert (∀ pd, pd ∈ APP_PERMISSIONS →
                is_Some (permissionRepo_findOne db2 (pd_name pd))) as Hperms2.
  { intros pd Hpd. rewrite (grows_permission db1 db2 _ Hg); by apply Hperms. }
  split; [done|]. split; [done|].
  rewrite bind_eval.
  destruct (seedPermissions_loop APP_PERMISSIONS db2) as (db3 & -> & _ & _ & _ & Hsame).
  rewrite (Hsame Hperms2).
  destruct (seedRoles_loop APP_ROLES db2) as (db4 & -> & _ & _ & _ & Hsame4).
  by rewrite (Hsame4 Hroles).
Qed.

(** ** Invitations *)

Lemma bindI_eval {A B} (m : InviteService.MI A) (k : A → InviteService.MI B)
    (st : InviteService.Store) :
  (m ≫= k) st =
  match m st with
  | (Ok a, st') => k a st'
  | (Throw e, st') => (Throw e, st')
  end.
Proof. reflexivity. Qed.

Lemma find_all_false {A} (f : A → bool) (l : list A) :
  (∀ x, x ∈ l → f x = false) → find f l = None.
Proof.
  induction l as [|x l IH]; [done|]. intros H. simpl.
  rewrite (H x) by apply list_elem_of_here.
  apply IH. intros y Hy. by apply H, list_elem_of_further.
Qed.

Lemma inviteRepo_findOne_Some (p : InviteService.Invite → bool)
    (st : InviteService.Store) (i : InviteService.Invite) :
  InviteService.inviteRepo_findOne p st = Some i →
  i ∈ InviteService.inviteRepo st ∧ InviteService.invite_deletedAt i = None
  ∧ p i = true.
Proof.
  unfold InviteService.inviteRepo_findOne. intros H.
  apply find_some in H as [Hin Ht]. apply andb_prop in Ht as [Hp Hw].
  split; [by apply list_elem_of_In|]. split; [|done].
  unfold InviteService.present in Hp.
  by destruct (InviteService.invite_deletedAt i).
Qed.

(** What a check that returns has seen. *)
Lemma checkInviteToken_ok (st st' : InviteService.Store) (tok : string)
    (r : bool * InviteService.Invite) :
  InviteService.checkInviteToken tok st = (Ok r, st') →
  r.1 = true ∧ st' = st
  ∧ InviteService.inviteRepo_findOne (λ x, String.eqb (InviteService.token x) tok) st
    = Some r.2
  ∧ InviteService.invite_status r.2 = InviteService.ACTIVE
  ∧ (now (InviteService.tables st) ≤ InviteService.expiresAt r.2)%Z.
Proof.
  unfold InviteService.checkInviteToken. rewrite bindI_eval.
  unfold InviteService.getI at 1.
  destruct (InviteService.inviteRepo_findOne _ st) as [i|]; [|done].
  destruct (bool_decide (InviteService.invite_status i = InviteService.ACTIVE)) eqn:Hs;
    cbn; [|by unfold InviteService.throwI].
  apply bool_decide_eq_true in Hs. rewrite bindI_eval. unfold InviteService.getI.
  destruct (Z.gtb_spec (now (InviteService.tables st)) (InviteService.expiresAt i));
    [by unfold InviteService.throwI|].
  intros [= <- <-]. cbn. repeat split; [done..|lia].
Qed.


(** X26: [checkInviteToken] accepts a token only on the strength of a
    stored invite: the invite returned is in the table under that token,
    is not removed, is active and is not past its date; and an accepting
    check writes nothing. *)
Theorem checkInviteToken_sound (st st' : InviteService.Store) (tok : string)
    (valid : bool) (i : InviteService.Invite) :
  InviteService.checkInviteToken tok st = (Ok (valid, i), st') →
  valid = true ∧ st' = st
  ∧ i ∈ InviteService.inviteRepo st
  ∧ InviteService.token i = tok
  ∧ InviteService.invite_deletedAt i = None
  ∧ InviteService.invite_status i = InviteService.ACTIVE
  ∧ (now (InviteService.tables st) ≤ InviteService.expiresAt i)%Z.
Proof.
  intros Hrun.
  destruct (checkInviteToken_ok _ _ _ _ Hrun) as (Hv & Hst & Hfind & Hs & Ht).
  destruct (inviteRepo_findOne_Some _ _ _ Hfind) as (Hin & Hdel & Htok).
  apply String.eqb_eq in Htok. done.
Qed.

(** An instance: the invite of the sample store is accepted under its
    token. *)
Lemma checkInviteToken_sound_witness :
  ∃ i,
    InviteService.checkInviteToken "9c41" SampleInvites.invited
    = (Ok (true, i), SampleInvites.invited)
    ∧ InviteService.targetEmail i = "eve@acme.test"
    ∧ InviteService.invite_status i = InviteService.ACTIVE.
Proof.
  eexists.
  match goal with
  | |- ?ran ∧ _ => assert ran as Hrun by (vm_compute; reflexivity)
  end.
  split; [exact Hrun|].
  destruct (checkInviteToken_sound _ _ _ _ _ Hrun) as (_ & _ & _ & _ & _ & Hs & _).
  split; [reflexivity | exact Hs].
Defined.



(** X28: after [deleteInvite] has returned, the invite of that id is gone
    for the service: deleting it again throws [NotFoundError], and no
    check of any token, at any time, returns it; the invites of other ids
    are still in the table, and only the invite table was written. *)
Theorem deleteInvite_spec (st st' : InviteService.Store) (inviteId company msg : string) :
  InviteService.deleteInvite inviteId company st = (Ok msg, st') →
  InviteService.tables st' = InviteService.tables st
  ∧ InviteService.deleteInvite inviteId company st'
    = (Throw (NotFoundError "Invite not found"), st')
  ∧ (∀ t tok r st'',
       InviteService.checkInviteToken tok (InviteService.at_time t st') = (Ok r, st'') →
       InviteService.invite_id r.2 ≠ inviteId)
  ∧ (∀ x, x ∈ InviteService.inviteRepo st → InviteService.invite_id x ≠ inviteId →
          x ∈ InviteService.inviteRepo st').
Proof.
  unfold InviteService.deleteInvite at 1. rewrite bindI_eval.
  unfold InviteService.getI.
  destruct (InviteService.inviteRepo_findOne _ st) as [i|] eqn:Hfind;
    [|by unfold InviteService.throwI].
  destruct (inviteRepo_findOne_Some _ _ _ Hfind) as (_ & _ & Hw).
  apply andb_prop in Hw as [Hid _]. apply String.eqb_eq in Hid.
  cbn. intros [= <- <-]. rewrite Hid.
  assert (∀ y, y ∈ InviteService.inviteRepo
                   (InviteService.inviteRepo_softRemove i st).2 →
               InviteService.invite_deletedAt y = None →
               InviteService.invite_id y ≠ inviteId) as Hgone.
  { cbn. intros y Hy Hdel. apply list_elem_of_fmap in Hy as (x & -> & _).
    rewrite Hid in *.
    destruct (String.eqb_spec (InviteService.invite_id x) inviteId) as [E|E];
      [done | exact E]. }
  cbn in Hgone. rewrite Hid in Hgone.
  split; [done|]. split; [|split].
  - unfold InviteService.deleteInvite. rewrite bindI_eval.
    unfold InviteService.getI, InviteService.inviteRepo_findOne.
    rewrite find_all_false; [done|].
    intros y Hy. cbn in Hy.
    destruct (InviteService.invite_deletedAt y) as [d|] eqn:Hdel.
    + unfold InviteService.present. by rewrite Hdel.
    + specialize (Hgone y Hy Hdel). apply String.eqb_neq in Hgone.
      rewrite Hgone. by rewrite andb_false_r.
  - intros t tok r st'' Hrun.
    destruct (checkInviteToken_ok _ _ _ _ Hrun) as (_ & _ & Hfound & _).
    destruct (inviteRepo_findOne_Some _ _ _ Hfound) as (Hin & Hdel & _).
    by apply Hgone.
  - intros x Hx Hne. cbn. apply list_elem_of_fmap.
    exists x. split; [|done].
    apply String.eqb_neq in Hne. by rewrite Hne.
Qed.

(** An instance: the sample invite, deleted by its company. *)
Lemma deleteInvite_spec_witness :
  ∃ st',
    InviteService.deleteInvite "21" "c1" SampleInvites.invited
    = (Ok "Invite deleted successfully", st')
    ∧ InviteService.deleteInvite "21" "c1" st'
      = (Throw (NotFoundError "Invite not found"), st').
Proof.
  eexists.
  match goal with
  | |- ?ran ∧ _ => assert ran as Hrun by (vm_compute; reflexivity)
  end.
  split; [exact Hrun|].
  exact (proj1 (proj2 (deleteInvite_spec _ _ _ _ _ Hrun))).
Defined.

(** The row that [createInvite] stores. *)
Lemma createInvite_eval
    (send : string → string → string → string → result unit) (rnd : Z → string)
    (mail : string) (names : list string) (company userId : string)
    (st : InviteService.Store) (c : Company) :
  userRepo_exists_email (InviteService.tables st) mail = false →
  companyRepo (InviteService.tables st) !! company = Some c →
  InviteService.inviteRepo_findOne (InviteService.activeFor mail company) st = None →
  existsb (λ x, String.eqb (InviteService.token x) (rnd 32%Z)) (InviteService.inviteRepo st)
  = false →
  ∃ inv db1 db2,
    InviteService.targetEmail inv = mail
    ∧ InviteService.invite_companyId inv = company
    ∧ InviteService.invite_status inv = InviteService.ACTIVE
    ∧ InviteService.token inv = rnd 32%Z
    ∧ InviteService.invite_deletedAt inv = None
    ∧ InviteService.expiresAt inv
      = (now (InviteService.tables st)
         + or_default (Some (inviteExpiresAfter c)) (72 * 60 * 60 * 1000))%Z
    ∧ (userRepo db1 = userRepo (InviteService.tables st)
       ∧ companyRepo db1 = companyRepo (InviteService.tables st)
       ∧ now db1 = now (InviteService.tables st)
       ∧ cache db1 = cache (InviteService.tables st))
    ∧ (userRepo db2 = userRepo (InviteService.tables st)
       ∧ companyRepo db2 = companyRepo (InviteService.tables st)
       ∧ now db2 = now (InviteService.tables st))
    ∧ InviteService.createInvite send rnd mail names company userId st
      = match send mail (if String.eqb (company_name c) EmptyString
                         then "Company" else company_name c)
                   (rnd 32%Z) "kkkkkkk" with
        | Ok _ =>
            (Ok inv, {| InviteService.tables := db2;
                        InviteService.inviteRepo := InviteService.inviteRepo st ++ [inv] |})
        | Throw e =>
            (Throw e, {| InviteService.tables := db1;
                         InviteService.inviteRepo := InviteService.inviteRepo st ++ [inv] |})
        end.
Proof.
  intros Huser Hcompany Hnone Hfresh.
  eexists _, _, _.
  do 6 (split; [shelve|]). split; [shelve|]. split; [shelve|].
  unfold InviteService.createInvite. rewrite bindI_eval.
  unfold InviteService.getI at 1. rewrite Huser.
  rewrite bindI_eval. unfold InviteService.getI at 1. rewrite Hcompany.
  rewrite bindI_eval. unfold InviteService.getI at 1. rewrite Hnone.
  rewrite bindI_eval. unfold InviteService.getI at 1.
  rewrite bindI_eval. unfold InviteService.inviteRepo_save_new at 1.
  rewrite Hfresh. cbn [generateId].
  rewrite bindI_eval.
  destruct (send mail _ (rnd 32%Z) "kkkkkkk") as [[]|e]; [|reflexivity].
  rewrite bindI_eval. unfold InviteService.lift at 1. cbn.
  reflexivity.
  Unshelve.
  all: try reflexivity.
  all: cbn; repeat split; reflexivity.
Qed.

(** What a [createInvite] that returned has checked. *)
Lemma createInvite_checked
    (send : string → string → string → string → result unit) (rnd : Z → string)
    (mail : string) (names : list string) (company userId : string)
    (st st' : InviteService.Store) (inv : InviteService.Invite) :
  InviteService.createInvite send rnd mail names company userId st = (Ok inv, st') →
  userRepo_exists_email (InviteService.tables st) mail = false
  ∧ is_Some (companyRepo (InviteService.tables st) !! company)
  ∧ InviteService.inviteRepo_findOne (InviteService.activeFor mail company) st = None
  ∧ existsb (λ x, String.eqb (InviteService.token x) (rnd 32%Z))
            (InviteService.inviteRepo st) = false.
Proof.
  unfold InviteService.createInvite. rewrite bindI_eval.
  unfold InviteService.getI at 1.
  destruct (userRepo_exists_email _ mail); [by unfold InviteService.throwI|].
  rewrite bindI_eval. unfold InviteService.getI at 1.
  destruct (companyRepo _ !! company) as [c|]; [|by unfold InviteService.throwI].
  rewrite bindI_eval. unfold InviteService.getI at 1.
  destruct (InviteService.inviteRepo_findOne _ st); [by unfold InviteService.throwI|].
  rewrite bindI_eval. unfold InviteService.getI at 1.
  rewrite bindI_eval. unfold InviteService.inviteRepo_save_new at 1.
  destruct (existsb _ (InviteService.inviteRepo st)); [done|].
  intros _. eauto.
Qed.

(** With an active invite for the address in the table, [createInvite]
    is refused. *)
Lemma createInvite_refused
    (send : string → string → string → string → result unit) (rnd : Z → string)
    (mail : string) (names : list string) (company userId : string)
    (st : InviteService.Store) (c : Company) (i : InviteService.Invite) :
  userRepo_exists_email (InviteService.tables st) mail = false →
  companyRepo (InviteService.tables st) !! company = Some c →
  InviteService.inviteRepo_findOne (InviteService.activeFor mail company) st = Some i →
  InviteService.createInvite send rnd mail names company userId st
  = (Throw (ValidationError "Active invite already exists for this email"), st).
Proof.
  intros Huser Hcompany Hsome.
  unfold InviteService.createInvite. rewrite bindI_eval.
  unfold InviteService.getI at 1. rewrite Huser.
  rewrite bindI_eval. unfold InviteService.getI at 1. rewrite Hcompany.
  rewrite bindI_eval. unfold InviteService.getI at 1. by rewrite Hsome.
Qed.

Lemma exists_email_userRepo (db db' : Db) (mail : string) :
  userRepo db' = userRepo db →
  userRepo_exists_email db' mail = userRepo_exists_email db mail.
Proof. unfold userRepo_exists_email. by intros ->. Qed.

(** The invite just appended is the active one found for its address. *)
Lemma activeFor_appended (mail company : string) (st : InviteService.Store)
    (db : Db) (inv : InviteService.Invite) :
  InviteService.inviteRepo_findOne (InviteService.activeFor mail company) st = None →
  InviteService.targetEmail inv = mail →
  InviteService.invite_companyId inv = company →
  InviteService.invite_status inv = InviteService.ACTIVE →
  InviteService.invite_deletedAt inv = None →
  InviteService.inviteRepo_findOne (InviteService.activeFor mail company)
    {| InviteService.tables := db;
       InviteService.inviteRepo := InviteService.inviteRepo st ++ [inv] |}
  = Some inv.
Proof.
  intros Hnone Hm Hc Hs Hd. unfold InviteService.inviteRepo_findOne in *. cbn.
  rewrite (find_app_None _ _ _ Hnone). cbn.
  unfold InviteService.present, InviteService.activeFor.
  rewrite Hd, Hm, Hc, Hs, !String.eqb_refl.
  by rewrite (bool_decide_eq_true_2 _ eq_refl).
Qed.

(** X29: when [createInvite] has returned an invite and the company's
    invite lifetime is not negative, the token of the invite is accepted
    by [checkInviteToken], which returns that invite; and a further
    [createInvite] for the same address and company, whoever asks and
    whatever the roles, throws [ValidationError] "Active invite already
    exists for this email" and writes nothing. *)
Theorem createInvite_then
    (send send' : string → string → string → string → result unit)
    (rnd rnd' : Z → string)
    (mail : string) (names names' : list string) (company userId userId' : string)
    (st st' : InviteService.Store) (inv : InviteService.Invite) :
  InviteService.createInvite send rnd mail names company userId st = (Ok inv, st') →
  (∀ c, companyRepo (InviteService.tables st) !! company = Some c →
        (0 ≤ inviteExpiresAfter c)%Z) →
  InviteService.checkInviteToken (InviteService.token inv) st' = (Ok (true, inv), st')
  ∧ InviteService.createInvite send' rnd' mail names' company userId' st'
    = (Throw (ValidationError "Active invite already exists for this email"), st').
Proof.
  intros Hrun Hlife.
  destruct (createInvite_checked _ _ _ _ _ _ _ _ _ Hrun)
    as (Huser & [c Hcompany] & Hnone & Hfresh).
  destruct (createInvite_eval send rnd mail names company userId st c
              Huser Hcompany Hnone Hfresh)
    as (inv0 & db1 & db2 & Hm & Hc & Hs & Htok & Hd & Hexp & _ & (Hu2 & Hc2 & Hn2) & Heq).
  rewrite Heq in Hrun.
  destruct (send mail _ (rnd 32%Z) "kkkkkkk") as [[]|e]; [|done].
  injection Hrun as <- <-. split.
  - unfold InviteService.checkInviteToken. rewrite bindI_eval.
    unfold InviteService.getI at 1. unfold InviteService.inviteRepo_findOne. cbn.
    rewrite find_app_None.
    2: { apply find_all_false. intros x Hx.
         destruct (InviteService.present x); [|done]. cbn. rewrite Htok.
         destruct (String.eqb (InviteService.token x) (rnd 32%Z)) eqn:E; [|done].
         assert (existsb (λ x, String.eqb (InviteService.token x) (rnd 32%Z))
                         (InviteService.inviteRepo st) = true) as Hin
           by (apply existsb_elem_of; eauto).
         by rewrite Hfresh in Hin. }
    cbn. unfold InviteService.present. rewrite Hd, String.eqb_refl. cbn.
    rewrite Hs, (bool_decide_eq_true_2 _ eq_refl). cbn.
    rewrite bindI_eval. unfold InviteService.getI. cbn.
    rewrite Hn2, Hexp.
    specialize (Hlife c Hcompany).
    assert (0 ≤ or_default (Some (inviteExpiresAfter c)) (72 * 60 * 60 * 1000))%Z as Hpos.
    { unfold or_default. destruct (inviteExpiresAfter c =? 0)%Z; lia. }
    destruct (Z.gtb_spec (now (InviteService.tables st))
                (now (InviteService.tables st)
                 + or_default (Some (inviteExpiresAfter c)) (72 * 60 * 60 * 1000)));
      [lia | done].
  - apply (createInvite_refused _ _ _ _ _ _ _ c inv0).
    + cbn. by rewrite (exists_email_userRepo _ _ _ Hu2).
    + cbn. by rewrite Hc2.
    + by apply activeFor_appended.
Qed.

(** An instance: the invitation of the sample store. *)
Lemma createInvite_then_witness :
  ∃ inv st',
    SampleInvites.createInvite "eve@acme.test" ["member"] "c1" "19" SampleInvites.fresh
    = (Ok inv, st')
    ∧ InviteService.checkInviteToken (InviteService.token inv) st' = (Ok (true, inv), st')
    ∧ SampleInvites.createInvite "eve@acme.test" ["admin"] "c1" "18" st'
      = (Throw (ValidationError "Active invite already exists for this email"), st').
Proof.
  eexists _, _.
  match goal with
  | |- ?ran ∧ _ => assert ran as Hrun by (vm_compute; reflexivity)
  end.
  split; [exact Hrun|].
  apply (createInvite_then _ _ _ _ _ _ _ _ _ _ _ _ _ Hrun).
  intros c Hc. vm_compute in Hc. injection Hc as <-. vm_compute. discriminate.
Defined.


